(** * OveloAI chatbot backend: session store and conversation controller

    A shallow embedding of [app/main.py], [app/ai_brain.py],
    [app/lead_capture.py] and the parts of [app/config.py] they read, followed
    by the properties of the lead-capture dialogue.

    Conventions.
    - A Python [str] is a Rocq [string]: the UTF-8 bytes of the text.  The
      code only concatenates strings, compares them, and searches them for
      ASCII needles; on well-formed UTF-8 these agree bytewise with Python's
      code-point operations.  A [str] may also hold code points that UTF-8
      does not encode (a lone surrogate, which the JSON escape [\ud800]
      yields); such a code point is written as the three bytes of its
      generalised encoding, and [MIMEText] raises on a text that holds
      one.
    - A Python [dict] with string keys whose key set varies ([sessions],
      [user_data]) is a [gmap string _]; a dict built with a fixed set of keys
      (a session, a history entry, the answer of [get_ai_response]) is a
      record with one field per key.
    - [session["awaiting_action"]] holds [None] or a [str]; it is an
      [option string] here, so that "one of three values" is a property of
      the code and not of the type.
    - The float literals of the code ([0.0], [0.5], [0.7], [0.9], [0.95],
      [1.0]) are only stored and returned, never computed with; each is the
      rational it denotes.
    - Everything the code obtains from outside (clock, UUID generator, file
      system, embedding model, vector store, language model, random choice,
      SMTP relay) and what the libraries make of a text they encode is read
      from an [Env] record, one field per call site; a call that performs
      I/O or encodes text may raise, and then its field carries the
      exception. *)

From Stdlib Require Import QArith Ascii String DecimalString.
From stdpp Require Import gmap strings list fin_maps.

Local Open Scope list_scope.

(* ===================================================================== *)
(** ** Python strings                                                     *)
(* ===================================================================== *)

(** [needle in haystack] for two [str]: substring search. *)
Fixpoint str_contains (needle haystack : string) : bool :=
  String.prefix needle haystack ||
  match haystack with
  | EmptyString => false
  | String _ rest => str_contains needle rest
  end.

(** [haystack.find(needle)], [None] standing for -1. *)
Fixpoint str_find (needle haystack : string) : option nat :=
  if String.prefix needle haystack then Some 0
  else match haystack with
       | EmptyString => None
       | String _ rest => option_map S (str_find needle rest)
       end.

(** [str(n)] for a natural number. *)
Definition str_of_nat (n : nat) : string := NilEmpty.string_of_uint (Nat.to_uint n).

(** [any(f(x) for x in xs)]. *)
Definition any {A} (f : A → bool) (xs : list A) : bool := existsb f xs.

(** [all(xs)] over a list of truth values. *)
Definition all (xs : list bool) : bool := forallb id xs.

(** Truthiness of an [Optional[str]]: [None] and [""] are falsy. *)
Definition truthy (o : option string) : bool :=
  match o with
  | Some (String _ _) => true
  | _ => false
  end.

(** Case mapping of one ASCII character: [A]..[Z] to [a]..[z]. *)
Definition ascii_to_lower (c : ascii) : ascii :=
  let n := Ascii.nat_of_ascii c in
  if (65 <=? n)%nat && (n <=? 90)%nat then Ascii.ascii_of_nat (n + 32) else c.

(** [str.lower] on text made of ASCII characters only.  (On other text
    Python applies the Unicode case mapping, which the development keeps
    abstract: see [str_lower] below.) *)
Fixpoint ascii_lower (s : string) : string :=
  match s with
  | EmptyString => EmptyString
  | String c rest => String (ascii_to_lower c) (ascii_lower rest)
  end.

(** The text consists of ASCII characters (bytes below 128) only. *)
Fixpoint is_ascii_text (s : string) : bool :=
  match s with
  | EmptyString => true
  | String c rest => (Ascii.nat_of_ascii c <? 128)%nat && is_ascii_text rest
  end.

(** One lowercase hexadecimal digit. *)
Definition hex_digit (d : N) : ascii :=
  Ascii.ascii_of_N (if (d <? 10)%N then 48 + d else 87 + d)%N.

(** ['%0wx' % n] for [n < 16^w]: [w] lowercase hexadecimal digits. *)
Fixpoint hex_digits (w : nat) (n : N) : string :=
  match w with
  | O => EmptyString
  | S w' => hex_digits w' (n / 16)%N +:+ String (hex_digit (n mod 16)%N) EmptyString
  end.

(** [str(u)] for a [uuid.UUID] [u] with integer value [n]:
    the 32 hexadecimal digits grouped 8-4-4-4-12. *)
Definition str_uuid (n : N) : string :=
  let hex := hex_digits 32 n in
  String.substring 0 8 hex +:+ "-" +:+ String.substring 8 4 hex +:+ "-" +:+
  String.substring 12 4 hex +:+ "-" +:+ String.substring 16 4 hex +:+ "-" +:+
  String.substring 20 12 hex.

(** The 32 characters of a UUID text that are not its four hyphens. *)
Definition uuid_hex (u : string) : string :=
  String.substring 0 8 u +:+ String.substring 9 4 u +:+ String.substring 14 4 u +:+
  String.substring 19 4 u +:+ String.substring 24 12 u.

(** A lowercase hexadecimal digit: [0]..[9] or [a]..[f]. *)
Definition is_hex_char (c : ascii) : bool :=
  let n := Ascii.nat_of_ascii c in
  ((48 <=? n)%nat && (n <=? 57)%nat) || ((97 <=? n)%nat && (n <=? 102)%nat).

Fixpoint is_hex_text (s : string) : bool :=
  match s with
  | EmptyString => true
  | String c rest => is_hex_char c && is_hex_text rest
  end.

(* ===================================================================== *)
(** ** Configuration ([app/config.py])                                    *)
(* ===================================================================== *)

(** The fields of [Settings] the modelled code reads.  The SMTP fields
    default to [os.getenv(..)], which is [None] when the variable is unset. *)
Record Settings := {
  SMTP_SERVER : option string;
  SMTP_PORT : Z;
  SMTP_USERNAME : option string;
  SMTP_PASSWORD : option string;
  RECEIVER_EMAIL : option string;
  OLLAMA_MODEL : string;
  FAISS_DB_PATH : string;
  HUGGINGFACE_EMBEDDING_MODEL : string;
  LEAD_CAPTURE_PHRASES : list string
}.

(** The default value of [Settings.LEAD_CAPTURE_PHRASES]. *)
Definition default_LEAD_CAPTURE_PHRASES : list string :=
  ["price"; "quote"; "cost"; "contact"; "talk to"; "meeting"; "schedule"].

(** The settings of a process started with no environment variable set. *)
Definition default_settings : Settings := {|
  SMTP_SERVER := None;
  SMTP_PORT := 587;
  SMTP_USERNAME := None;
  SMTP_PASSWORD := None;
  RECEIVER_EMAIL := None;
  OLLAMA_MODEL := "phi3:mini";
  FAISS_DB_PATH := "faiss_db";
  HUGGINGFACE_EMBEDDING_MODEL := "sentence-transformers/all-MiniLM-L6-v2";
  LEAD_CAPTURE_PHRASES := default_LEAD_CAPTURE_PHRASES
|}.

(* ===================================================================== *)
(** ** Data model ([app/main.py])                                         *)
(* ===================================================================== *)

(** An entry of [session["message_history"]]. *)
Record Message := {
  role : string;
  content : string;
  timestamp : string
}.

(** A value of the [sessions] dictionary. *)
Record Session := {
  created_at : string;
  message_history : list Message;
  awaiting_action : option string;
  user_data : gmap string string
}.

Record ChatRequest := {
  message : string;
  session_id : option string
}.

Record ChatResponse := {
  response : string;
  resp_session_id : string;
  confidence : Q;
  requires_action : option string
}.

(** The dictionary [get_ai_response] returns. *)
Record AiResponse := {
  ai_response : string;
  ai_confidence : Q
}.

(* ===================================================================== *)
(** ** External effects                                                   *)
(* ===================================================================== *)

(** A Python exception, instance of [Exception]; [exn_str e] is [str(e)].
    (Interrupts and exits, which are not instances of [Exception], are
    outside the model.) *)
Inductive exn := Exception (msg : string).

Definition exn_str (e : exn) : string := match e with Exception msg => msg end.

(** How a call ends: it returns a value or raises. *)
Inductive Result (A : Type) :=
  | Ok (a : A)
  | Raise (e : exn).
Arguments Ok {A} a.
Arguments Raise {A} e.

(** What a request handler does to the outside world, in order.
    [EvSendLeadEmail] marks the entry of [send_lead_email] with its two
    arguments; the others are calls into libraries. *)
Inductive Event :=
  | EvPrint (line : string)
  | EvSendLeadEmail (lead_data : gmap string string) (history : list Message)
  | EvSmtpConnect (server : string) (port : Z)
  | EvSmtpStartTls
  | EvSmtpLogin (username password : string)
  | EvSmtpSendmail (sender receiver subject body : string)
  | EvSmtpQuit
  | EvLoadEmbeddings (model_name : string)
  | EvPathExists (path : string)
  | EvFaissLoad (path : string)
  | EvRagInvoke (llm_model question : string)
  | EvRandomChoice.

(** What the outside world answers during one request. *)
Record Env := {
  (* app/main.py *)
  uuid4_int : N;                  (* uuid.uuid4().int, below 2^128 *)
  now_created : string;           (* datetime.now().isoformat(), line 43 *)
  now_user : string;              (* line 68 *)
  now_assistant : string;         (* line 111 *)
  (* app/ai_brain.py *)
  embeddings_init : Result unit;  (* HuggingFaceEmbeddings(..), line 25 *)
  path_exists : bool;             (* os.path.exists(..), line 27 *)
  faiss_load : Result unit;       (* FAISS.load_local(..), line 30 *)
  rag_invoke : Result string;     (* rag_chain.invoke(message), line 67 *)
  random_index : nat;             (* index drawn by random.choice, line 71 *)
  (* app/lead_capture.py *)
  mime_text : string → Result unit;  (* MIMEText(body), line 45: raises
                                        UnicodeEncodeError on a body that
                                        cannot be encoded *)
  smtp_connect : Result unit;     (* smtplib.SMTP(..).__enter__, line 52 *)
  smtp_starttls : Result unit;    (* line 53 *)
  smtp_login : Result unit;       (* line 54 *)
  smtp_sendmail : Result unit;    (* line 55 *)
  smtp_quit : Result unit         (* SMTP.__exit__, end of the with block *)
}.

(** A computation that logs events and returns or raises. *)
Definition Eff (A : Type) : Type := (list Event * Result A)%type.

Definition ret {A} (a : A) : Eff A := ([], Ok a).

Definition bind {A B} (m : Eff A) (k : A → Eff B) : Eff B :=
  match m with
  | (t, Ok a) => let '(t', r) := k a in (t ++ t', r)
  | (t, Raise e) => (t, Raise e)
  end.

Notation "'do' x '<-' m 'in' k" := (bind m (fun x => k))
  (at level 10, x name, m at level 100, k at level 200, only parsing).
Notation "'run' m 'then' k" := (bind m (fun _ => k))
  (at level 10, m at level 100, k at level 200, only parsing).

(** A library call: logged, and ending as the outside world decides. *)
Definition external {A} (ev : Event) (outcome : Result A) : Eff A := ([ev], outcome).

(** [print(line)] in the request handlers.  The lines printed there are
    ASCII literals, the last of them followed by the text of an exception;
    the standard output is taken to accept them. *)
Definition print (line : string) : Eff unit := ([EvPrint line], Ok tt).

(** [try: body except Exception as e: handler(e)]. *)
Definition try_except {A} (body : Eff A) (handler : exn → Eff A) : Eff A :=
  match body with
  | (t, Ok a) => (t, Ok a)
  | (t, Raise e) => let '(t', r) := handler e in (t ++ t', r)
  end.

(** [with enter as _: body]: when [enter] returns, [body] runs and then
    [exit] runs whether or not [body] raised; an exception of [exit]
    replaces the one of [body]. *)
Definition with_block (enter body exit : Eff unit) : Eff unit :=
  run enter then
  let '(t, r) := body in
  match exit with
  | (t', Ok _) => (t ++ t', r)
  | (t', Raise e') => (t ++ t', Raise e')
  end.

Definition events {A} (m : Eff A) : list Event := fst m.
Definition outcome {A} (m : Eff A) : Result A := snd m.

Definition is_send_lead_email (ev : Event) : bool :=
  match ev with EvSendLeadEmail _ _ => true | _ => false end.

(** The entries of a trace that are calls of [send_lead_email]. *)
Definition notification_attempts (t : list Event) : list Event :=
  List.filter is_send_lead_email t.

(** The trace reaches the vector store or the language model. *)
Definition invokes_answer_generator (t : list Event) : bool :=
  existsb (λ ev, match ev with EvFaissLoad _ | EvRagInvoke _ _ => true | _ => false end) t.

(* ===================================================================== *)
(** ** Notification sender ([app/lead_capture.py])                        *)
(* ===================================================================== *)

Definition NL : string := String (Ascii.ascii_of_nat 10) EmptyString.
Definition DQUOTE : string := String (Ascii.ascii_of_nat 34) EmptyString.

(** The f-string of lines 33 to 43. *)
Definition lead_email_body (lead_data : gmap string string)
    (initial_message timestamp : string) : string :=
  NL +:+
  "    A new lead has been captured from your AI assistant!" +:+ NL +:+
  "    " +:+ NL +:+
  "    Name: " +:+ default "N/A" (lead_data !! "name") +:+ NL +:+
  "    Email: " +:+ default "N/A" (lead_data !! "email") +:+ NL +:+
  "    " +:+ NL +:+
  "    ---" +:+ NL +:+
  "    Lead Details:" +:+ NL +:+
  "    Initial Intent: " +:+ DQUOTE +:+ initial_message +:+ DQUOTE +:+ NL +:+
  "    Time of Capture: " +:+ timestamp +:+ NL +:+
  "    ".

(** Lines 52 to 55: the [with smtplib.SMTP(..) as server] block. *)
Definition smtp_delivery (cfg : Settings) (env : Env)
    (sender_email receiver_email subject body : string) : Eff unit :=
  with_block
    (external (EvSmtpConnect (default "" (SMTP_SERVER cfg)) (SMTP_PORT cfg))
              (smtp_connect env))
    (run external EvSmtpStartTls (smtp_starttls env) then
     run external (EvSmtpLogin (default "" (SMTP_USERNAME cfg))
                               (default "" (SMTP_PASSWORD cfg)))
                  (smtp_login env) then
     external (EvSmtpSendmail sender_email receiver_email subject body)
              (smtp_sendmail env))
    (external EvSmtpQuit (smtp_quit env)).

(** Lines 21 to 43: the text of the message, made from the lead and the
    first entry of the history. *)
Definition lead_body (lead_data : gmap string string) (message_history : list Message)
    : string :=
  let initial_message :=
    match message_history with m :: _ => content m | [] => "N/A" end in
  let timestamp :=
    match message_history with m :: _ => timestamp m | [] => "N/A" end in
  lead_email_body lead_data initial_message timestamp.

(** Lines 45 to 48: [MIMEText(body)] and the three header assignments.
    [MIMEText] encodes the body, and raises when the body cannot be encoded;
    these lines stand before the [try] of line 50. *)
Definition assemble_message (env : Env) (body : string) : Eff unit :=
  ([], mime_text env body).

(** Lines 52 to 55 on the values of lines 18 to 43: the assembled message
    is handed to the relay. *)
Definition lead_delivery (cfg : Settings) (env : Env)
    (lead_data : gmap string string) (message_history : list Message) : Eff unit :=
  let sender_email := default "" (SMTP_USERNAME cfg) in
  let receiver_email := default "" (RECEIVER_EMAIL cfg) in
  let subject := "New OveloAI Lead Captured" in
  smtp_delivery cfg env sender_email receiver_email subject
    (lead_body lead_data message_history).

(** The test of line 14. *)
Definition smtp_configured (cfg : Settings) : bool :=
  all [truthy (SMTP_SERVER cfg); truthy (SMTP_USERNAME cfg);
       truthy (SMTP_PASSWORD cfg); truthy (RECEIVER_EMAIL cfg)].

(** [send_lead_email]: the guard of line 14, the assembly of the message
    (lines 18 to 48), which nothing guards, and the [try] statement of
    lines 50 to 58 around the delivery. *)
Definition send_lead_email (cfg : Settings) (env : Env)
    (lead_data : gmap string string) (message_history : list Message) : Eff unit :=
  run external (EvSendLeadEmail lead_data message_history) (Ok tt) then
  if negb (smtp_configured cfg)
  then print "SMTP credentials are not fully configured. Email will not be sent."
  else
    run assemble_message env (lead_body lead_data message_history) then
    try_except
      (run lead_delivery cfg env lead_data message_history then
       print "Lead email sent successfully!")
      (λ e, print ("Failed to send email: " +:+ exn_str e)).

(* ===================================================================== *)
(** ** Answer function ([app/ai_brain.py])                                *)
(* ===================================================================== *)

Definition KNOWLEDGE_BASE_NOT_FOUND : string :=
  "Error: Knowledge base not found. Please ensure your FAISS vector database has been created.".

Definition greetings : list string := ["Hello!"; "Hi there!"; "Hey!"; "Greetings!"].

(** [random.choice(seq)]: the element at the drawn index. *)
Definition random_choice (env : Env) (seq : list string) : Eff string :=
  run external EvRandomChoice (Ok tt) then
  ret (nth (random_index env mod length seq) seq "").

Definition get_ai_response (cfg : Settings) (env : Env) (message : string) : Eff AiResponse :=
  run external (EvLoadEmbeddings (HUGGINGFACE_EMBEDDING_MODEL cfg)) (embeddings_init env) then
  do found <- external (EvPathExists (FAISS_DB_PATH cfg)) (Ok (path_exists env)) in
  if negb found then
    ret {| ai_response := KNOWLEDGE_BASE_NOT_FOUND; ai_confidence := 0 # 1 |}
  else
    run external (EvFaissLoad (FAISS_DB_PATH cfg)) (faiss_load env) then
    do response_text <- external (EvRagInvoke (OLLAMA_MODEL cfg) message) (rag_invoke env) in
    do greeting <- random_choice env greetings in
    let personal_greeting := greeting +:+ " " +:+ response_text in
    let confidence := 95 # 100 in
    ret {| ai_response := personal_greeting; ai_confidence := confidence |}.

(* ===================================================================== *)
(** ** Session store and conversation controller ([app/main.py])          *)
(* ===================================================================== *)

(** The dictionary literal of lines 42 to 47. *)
Definition new_session (now : string) : Session := {|
  created_at := now;
  message_history := [];
  awaiting_action := None;
  user_data := ∅
|}.

(** [get_session]: returns the store after the call and the session that
    the returned reference designates. *)
Definition get_session (now : string) (sessions : gmap string Session)
    (session_id : string) : gmap string Session * Session :=
  match sessions !! session_id with
  | None => (<[session_id := new_session now]> sessions, new_session now)
  | Some session => (sessions, session)
  end.

(** [session["message_history"].append(m)]. *)
Definition append_message (m : Message) (session : Session) : Session := {|
  created_at := created_at session;
  message_history := message_history session ++ [m];
  awaiting_action := awaiting_action session;
  user_data := user_data session
|}.

(** [session["awaiting_action"] = a]. *)
Definition set_awaiting_action (a : option string) (session : Session) : Session := {|
  created_at := created_at session;
  message_history := message_history session;
  awaiting_action := a;
  user_data := user_data session
|}.

(** [session["user_data"][key] = value]. *)
Definition set_user_data (key value : string) (session : Session) : Session := {|
  created_at := created_at session;
  message_history := message_history session;
  awaiting_action := awaiting_action session;
  user_data := <[key := value]> (user_data session)
|}.

(** [request_data.session_id or str(uuid.uuid4())]: the left operand when
    it is truthy (neither [None] nor the empty string). *)
Definition resolve_session_id (env : Env) (request_data : ChatRequest) : string :=
  match session_id request_data with
  | Some (String c rest) => String c rest
  | Some EmptyString | None => str_uuid (uuid4_int env)
  end.

(** The locals [response_text], [confidence] and [requires_action] of
    [chat_endpoint] once the main logic flow has run. *)
Record Reply := {
  response_text : string;
  reply_confidence : Q;
  reply_requires_action : option string
}.

Definition NAME_PROMPT : string := "Awesome! Let's get you started. What's your name?".
Definition EMAIL_RETRY_PROMPT : string :=
  "That doesn't look like a valid email. Can you please try again?".
Definition name_acknowledgment (name : string) : string :=
  "Thanks " +:+ name +:+ "! What's your email address?".
Definition email_confirmation (email : string) : string :=
  "Perfect! We'll contact you at " +:+ email +:+ " within 24 hours! 🎉".

(** The value of [session["awaiting_action"]] is one the controller knows. *)
Definition known_action (a : option string) : Prop :=
  a = None ∨ a = Some "get_name" ∨ a = Some "get_email".

Section Controller.

(** Python's built-in [str.lower] (the Unicode case mapping). *)
Variable str_lower : string → string.

(** What the development assumes [str.lower] does when a theorem says so:
    on ASCII-only text it maps [A]..[Z] to [a]..[z] and nothing else. *)
Definition lower_agrees_on_ascii : Prop :=
  ∀ s, is_ascii_text s = true → str_lower s = ascii_lower s.

Definition detect_lead_intent (cfg : Settings) (message : string) : bool :=
  any (λ phrase, str_contains phrase (str_lower message)) (LEAD_CAPTURE_PHRASES cfg).

(** Lines 77 to 105 of [chat_endpoint]: the session as the branch leaves
    it, and what the branch does and yields.  The session is mutated
    before any call that may raise, so it is returned beside the
    computation and not inside it. *)
Definition main_logic_flow (cfg : Settings) (env : Env) (session : Session)
    (message : string) : Session * Eff Reply :=
  if decide (awaiting_action session = Some "get_name") then
    let session := set_user_data "name" message session in
    let session := set_awaiting_action (Some "get_email") session in
    (session,
     ret {| response_text := name_acknowledgment message;
            reply_confidence := 9 # 10;
            reply_requires_action := Some "get_email" |})
  else if decide (awaiting_action session = Some "get_email") then
    if str_contains "@" message && str_contains "." message then
      let session := set_user_data "email" message session in
      let session := set_awaiting_action None session in
      (session,
       run send_lead_email cfg env (user_data session) (message_history session) then
       ret {| response_text := email_confirmation message;
              reply_confidence := 1 # 1;
              reply_requires_action := None |})
    else
      let session := set_awaiting_action (Some "get_email") session in
      (session,
       ret {| response_text := EMAIL_RETRY_PROMPT;
              reply_confidence := 5 # 10;
              reply_requires_action := Some "get_email" |})
  else if detect_lead_intent cfg message then
    let session := set_awaiting_action (Some "get_name") session in
    (session,
     ret {| response_text := NAME_PROMPT;
            reply_confidence := 9 # 10;
            reply_requires_action := Some "get_name" |})
  else
    (session,
     do ai <- get_ai_response cfg env message in
     ret {| response_text := ai_response ai;
            reply_confidence := ai_confidence ai;
            reply_requires_action := None |}).

Definition user_message (env : Env) (text : string) : Message :=
  {| role := "user"; content := text; timestamp := now_user env |}.

Definition assistant_message (env : Env) (text : string) : Message :=
  {| role := "assistant"; content := text; timestamp := now_assistant env |}.

(** [chat_endpoint]: the store after the call, the events of the call and
    its outcome.  When the main logic flow raises, the exception leaves the
    endpoint and the store keeps what was written before. *)
Definition chat_endpoint (cfg : Settings) (env : Env) (sessions : gmap string Session)
    (request_data : ChatRequest) : gmap string Session * Eff ChatResponse :=
  let session_id := resolve_session_id env request_data in
  let '(sessions, session) := get_session (now_created env) sessions session_id in
  let session := append_message (user_message env (message request_data)) session in
  let '(session, (trace, result)) :=
    main_logic_flow cfg env session (message request_data) in
  match result with
  | Raise e => (<[session_id := session]> sessions, (trace, Raise e))
  | Ok reply =>
      let session :=
        append_message (assistant_message env (response_text reply)) session in
      (<[session_id := session]> sessions,
       (trace,
        Ok {| response := response_text reply;
              resp_session_id := session_id;
              confidence := reply_confidence reply;
              requires_action := reply_requires_action reply |}))
  end.

(** A sequence of chat calls, each with what the outside world answers
    during it: the store after the last call. *)
Definition chat_calls (cfg : Settings) (calls : list (Env * ChatRequest))
    (sessions : gmap string Session) : gmap string Session :=
  fold_left (λ st call, fst (chat_endpoint cfg call.1 st call.2)) calls sessions.

(** Every call of the sequence that is addressed to [sid] returned a
    response. *)
Fixpoint all_returned_on (sid : string) (cfg : Settings)
    (calls : list (Env * ChatRequest)) (sessions : gmap string Session) : Prop :=
  match calls with
  | [] => True
  | call :: rest =>
      (resolve_session_id call.1 call.2 = sid →
       ∃ r, outcome (snd (chat_endpoint cfg call.1 sessions call.2)) = Ok r) ∧
      all_returned_on sid cfg rest (fst (chat_endpoint cfg call.1 sessions call.2))
  end.

End Controller.

(** The length of the history of [session_id], zero when there is none. *)
Definition history_length (sessions : gmap string Session) (session_id : string) : nat :=
  match sessions !! session_id with
  | Some session => length (message_history session)
  | None => 0
  end.

(** The calls of a sequence that are addressed to [session_id]. *)
Definition calls_on (session_id : string) (calls : list (Env * ChatRequest)) : nat :=
  length (List.filter (λ call, bool_decide (resolve_session_id call.1 call.2 = session_id)) calls).

(** The process starts with [sessions = {}] (line 27). *)
Definition initial_sessions : gmap string Session := ∅.


(** Every session of the store has an [awaiting_action] the controller
    knows. *)
Definition store_ok (sessions : gmap string Session) : Prop :=
  ∀ sid session, sessions !! sid = Some session → known_action (awaiting_action session).

(** The entries a call adds to the history of its session: the inbound
    message, and the outbound one when the call returns. *)
Definition appended (env : Env) (request_data : ChatRequest)
    (result : Result ChatResponse) : list Message :=
  match result with
  | Ok r => [user_message env (message request_data); assistant_message env (response r)]
  | Raise _ => [user_message env (message request_data)]
  end.

(** One when the call is addressed to [sid], zero otherwise. *)
Definition addressed (sid : string) (call : Env * ChatRequest) : nat :=
  if bool_decide (resolve_session_id call.1 call.2 = sid) then 1 else 0.

(* ===================================================================== *)
(** ** Example inputs                                                     *)
(* ===================================================================== *)

(** The code point U+D800, a lone surrogate: what [json.loads] makes of
    the escape [\ud800]. *)
Definition LONE_SURROGATE : string :=
  String (Ascii.ascii_of_nat 237)
    (String (Ascii.ascii_of_nat 160) (String (Ascii.ascii_of_nat 128) EmptyString)).

(** [MIMEText] on the texts of the examples, which but for that surrogate
    are ASCII: it cannot encode a body that holds the lone surrogate, and
    says where the surrogate stands; it encodes the others. *)
Definition mime_text_example (body : string) : Result unit :=
  match str_find LONE_SURROGATE body with
  | Some position =>
      Raise (Exception ("'utf-8' codec can't encode character '\ud800' in position " +:+
                        str_of_nat position +:+ ": surrogates not allowed"))
  | None => Ok tt
  end.

(** An outside world in which every call succeeds and the knowledge store
    has been built. *)
Definition env_all_up : Env := {|
  uuid4_int := 0x3b241101e2bb4255a0c1d2e3f4a5b6c7;
  now_created := "2025-01-01T10:00:00.000000";
  now_user := "2025-01-01T10:00:00.000100";
  now_assistant := "2025-01-01T10:00:01.000000";
  embeddings_init := Ok tt;
  path_exists := true;
  faiss_load := Ok tt;
  rag_invoke := Ok "We build automation systems.";
  random_index := 2;
  mime_text := mime_text_example;
  smtp_connect := Ok tt;
  smtp_starttls := Ok tt;
  smtp_login := Ok tt;
  smtp_sendmail := Ok tt;
  smtp_quit := Ok tt
|}.

(** The knowledge store has not been built. *)
Definition env_no_store : Env := {|
  uuid4_int := uuid4_int env_all_up;
  now_created := now_created env_all_up;
  now_user := now_user env_all_up;
  now_assistant := now_assistant env_all_up;
  embeddings_init := Ok tt;
  path_exists := false;
  faiss_load := faiss_load env_all_up;
  rag_invoke := rag_invoke env_all_up;
  random_index := random_index env_all_up;
  mime_text := mime_text_example;
  smtp_connect := Ok tt;
  smtp_starttls := Ok tt;
  smtp_login := Ok tt;
  smtp_sendmail := Ok tt;
  smtp_quit := Ok tt
|}.

(** The knowledge store has not been built and the embedding model cannot
    be loaded either. *)
Definition env_no_store_no_model : Env := {|
  uuid4_int := uuid4_int env_all_up;
  now_created := now_created env_all_up;
  now_user := now_user env_all_up;
  now_assistant := now_assistant env_all_up;
  embeddings_init := Raise (Exception "sentence-transformers model could not be loaded");
  path_exists := false;
  faiss_load := faiss_load env_all_up;
  rag_invoke := rag_invoke env_all_up;
  random_index := random_index env_all_up;
  mime_text := mime_text_example;
  smtp_connect := Ok tt;
  smtp_starttls := Ok tt;
  smtp_login := Ok tt;
  smtp_sendmail := Ok tt;
  smtp_quit := Ok tt
|}.

(** The language model endpoint refuses the connection. *)
Definition env_llm_down : Env := {|
  uuid4_int := uuid4_int env_all_up;
  now_created := now_created env_all_up;
  now_user := now_user env_all_up;
  now_assistant := now_assistant env_all_up;
  embeddings_init := Ok tt;
  path_exists := true;
  faiss_load := Ok tt;
  rag_invoke := Raise (Exception "connection refused");
  random_index := random_index env_all_up;
  mime_text := mime_text_example;
  smtp_connect := Ok tt;
  smtp_starttls := Ok tt;
  smtp_login := Ok tt;
  smtp_sendmail := Ok tt;
  smtp_quit := Ok tt
|}.

(** The mail relay rejects the login. *)
Definition env_smtp_rejects : Env := {|
  uuid4_int := uuid4_int env_all_up;
  now_created := now_created env_all_up;
  now_user := now_user env_all_up;
  now_assistant := now_assistant env_all_up;
  embeddings_init := Ok tt;
  path_exists := true;
  faiss_load := Ok tt;
  rag_invoke := rag_invoke env_all_up;
  random_index := random_index env_all_up;
  mime_text := mime_text_example;
  smtp_connect := Ok tt;
  smtp_starttls := Ok tt;
  smtp_login := Raise (Exception "(535, b'authentication failed')");
  smtp_sendmail := Ok tt;
  smtp_quit := Ok tt
|}.

(** Settings with the mail relay configured. *)
Definition settings_with_smtp : Settings := {|
  SMTP_SERVER := Some "smtp.example.com";
  SMTP_PORT := 587;
  SMTP_USERNAME := Some "bot@example.com";
  SMTP_PASSWORD := Some "secret";
  RECEIVER_EMAIL := Some "sales@example.com";
  OLLAMA_MODEL := OLLAMA_MODEL default_settings;
  FAISS_DB_PATH := FAISS_DB_PATH default_settings;
  HUGGINGFACE_EMBEDDING_MODEL := HUGGINGFACE_EMBEDDING_MODEL default_settings;
  LEAD_CAPTURE_PHRASES := default_LEAD_CAPTURE_PHRASES
|}.

(** A session waiting for the visitor's name, one waiting for the email. *)
Definition session_awaiting_name : Session := {|
  created_at := "2025-01-01T09:59:00.000000";
  message_history :=
    [ {| role := "user"; content := "what does it cost?";
         timestamp := "2025-01-01T09:59:00.000100" |};
      {| role := "assistant"; content := NAME_PROMPT;
         timestamp := "2025-01-01T09:59:00.000200" |} ];
  awaiting_action := Some "get_name";
  user_data := ∅
|}.

Definition session_awaiting_email : Session := {|
  created_at := created_at session_awaiting_name;
  message_history :=
    message_history session_awaiting_name ++
    [ {| role := "user"; content := "Ada";
         timestamp := "2025-01-01T09:59:10.000000" |};
      {| role := "assistant"; content := name_acknowledgment "Ada";
         timestamp := "2025-01-01T09:59:10.000100" |} ];
  awaiting_action := Some "get_email";
  user_data := {[ "name" := "Ada" ]}
|}.

Definition request (text : string) (sid : option string) : ChatRequest :=
  {| message := text; session_id := sid |}.

(* ===================================================================== *)
(** ** Monitoring endpoints ([app/main.py], lines 121 to 136)             *)
(* ===================================================================== *)

(** The dictionary [health_check] returns. *)
Record Health := {
  status : string;
  health_timestamp : string;
  sessions_active : nat
}.

(** [health_check]; [now] is [datetime.now().isoformat()]. *)
Definition health_check (now : string) (sessions : gmap string Session) : Health :=
  {| status := "healthy"; health_timestamp := now; sessions_active := size sessions |}.

(** [get_session_data].  The module imports [FastAPI] and [Request] only,
    so evaluating [HTTPException] on line 135 raises [NameError]; the
    exception below is that [NameError]. *)
Definition get_session_data (sessions : gmap string Session) (session_id : string)
    : Result Session :=
  match sessions !! session_id with
  | None => Raise (Exception "name 'HTTPException' is not defined")
  | Some session => Ok session
  end.

(* ===================================================================== *)
(** ** Derived notions for the properties below                           *)
(* ===================================================================== *)

(** The session a call writes back under its identifier, given the session
    [get_session] returned: the branch's session, with the assistant message
    appended when the branch returned. *)
Definition session_after (str_lower : string → string) (cfg : Settings) (env : Env)
    (request_data : ChatRequest) (session : Session) : Session :=
  let flow := main_logic_flow str_lower cfg env
                (append_message (user_message env (message request_data)) session)
                (message request_data) in
  match outcome flow.2 with
  | Ok reply => append_message (assistant_message env (response_text reply)) flow.1
  | Raise _ => flow.1
  end.

(** The entries of a trace that [get_ai_response] makes. *)
Definition is_answer_event (ev : Event) : bool :=
  match ev with
  | EvLoadEmbeddings _ | EvPathExists _ | EvFaissLoad _ | EvRagInvoke _ _
  | EvRandomChoice => true
  | _ => false
  end.

Definition answer_function_events (t : list Event) : list Event :=
  List.filter is_answer_event t.

(** The test of line 84. *)
Definition looks_like_email (text : string) : bool :=
  str_contains "@" text && str_contains "." text.

(** What the captured data of a session always satisfies: only the keys
    [name] and [email] occur; a stored email passed the test of line 84 and
    comes with a name; a session that awaits the email has a name. *)
Definition captured_data_ok (session : Session) : Prop :=
  dom (user_data session) ⊆ ({[ "name"; "email" ]} : gset string)
  ∧ (∀ email, user_data session !! "email" = Some email →
       looks_like_email email = true ∧ is_Some (user_data session !! "name"))
  ∧ (awaiting_action session = Some "get_email" →
       is_Some (user_data session !! "name")).

(** The entries of a history that the visitor sent, and those the
    assistant sent. *)
Definition user_entries (history : list Message) : list Message :=
  List.filter (λ m, bool_decide (role m = "user")) history.
Definition assistant_entries (history : list Message) : list Message :=
  List.filter (λ m, bool_decide (role m = "assistant")) history.

(** What the history of a session always satisfies: it starts, if at all,
    with a user entry; its entries are user and assistant entries; and the
    assistant entries do not outnumber the user entries. *)
Definition history_ok (session : Session) : Prop :=
  (∀ first, head (message_history session) = Some first → role first = "user")
  ∧ Forall (λ m, role m = "user" ∨ role m = "assistant") (message_history session)
  ∧ length (assistant_entries (message_history session)) ≤
      length (user_entries (message_history session)).

(** The lines a trace prints, in order. *)
Definition printed (t : list Event) : list string :=
  flat_map (λ ev, match ev with EvPrint line => [line] | _ => [] end) t.

(** The messages a trace hands to the relay ([server.sendmail]). *)
Definition is_sendmail (ev : Event) : bool :=
  match ev with EvSmtpSendmail _ _ _ _ => true | _ => false end.

Definition mails_sent (t : list Event) : list Event := List.filter is_sendmail t.

(* ===================================================================== *)
(** ** The indexing script ([app/rag_system_faiss.py])                    *)
(* ===================================================================== *)

(** A langchain [Document]: its text and the file it was read from. *)
Record Document := {
  page_content : string;
  doc_source : string
}.

(** A FAISS vector store, known by the chunks it was built from. *)
Record VectorStore := {
  indexed : list Document
}.

(** What the indexing code does to the outside world, in order.  [IxPrint]
    is a call of [print], whether or not the standard output takes the
    line. *)
Inductive IndexEvent :=
  | IxPrint (line : string)
  | IxGlob (pattern : string)
  | IxLoadFile (file_path : string)
  | IxFromDocuments (chunks : list Document)
  | IxSaveLocal (folder : string)
  | IxSimilaritySearch (question : string) (k : nat).

(** What the outside world answers to the indexing code. *)
Record IndexEnv := {
  stdout_write : string → Result unit;               (* print(line): raises
                                                        UnicodeEncodeError when the
                                                        standard output cannot
                                                        encode the line *)
  glob_txt : list string;                            (* glob.glob(..), line 44 *)
  loader_load : string → Result (list Document);     (* TextLoader(..).load(), line 49 *)
  split_documents : list Document → list Document;   (* line 72 *)
  from_documents : list Document → Result unit;      (* FAISS.from_documents, line 76 *)
  save_local : Result unit;                          (* line 82 *)
  similarity_search : string → nat → Result (list Document)  (* line 94 *)
}.

(** The instance state of [OveloRAGSystem] that the methods read and
    write. *)
Record OveloRAGSystem := {
  vector_store : option VectorStore
}.

(** An indexing computation: it logs events and returns or raises. *)
Definition Indexing (A : Type) : Type := (list IndexEvent * Result A)%type.

Definition ix_ret {A} (a : A) : Indexing A := ([], Ok a).

Definition ix_bind {A B} (m : Indexing A) (k : A → Indexing B) : Indexing B :=
  match m with
  | (t, Ok a) => let '(t', r) := k a in (t ++ t', r)
  | (t, Raise e) => (t, Raise e)
  end.

Definition ix_external {A} (ev : IndexEvent) (result : Result A) : Indexing A :=
  ([ev], result).

(** [print(line)] in the indexing script.  Every line this script prints
    but the last starts with an emoji, so the call may raise. *)
Definition ix_print (ienv : IndexEnv) (line : string) : Indexing unit :=
  ([IxPrint line], stdout_write ienv line).

Definition ix_raise {A} (e : exn) : Indexing A := ([], Raise e).

(** [try: body except Exception as e: handler(e)]. *)
Definition ix_try {A} (body : Indexing A) (handler : exn → Indexing A) : Indexing A :=
  match body with
  | (t, Ok a) => (t, Ok a)
  | (t, Raise e) => let '(t', r) := handler e in (t ++ t', r)
  end.

Definition KB_DOCS_PATH : string := "knowledge_base/".

Definition loaded_line (file_path : string) : string := "✅ Loaded: " +:+ file_path.
Definition failed_line (file_path : string) (e : exn) : string :=
  "❌ Failed to load " +:+ file_path +:+ ": " +:+ exn_str e.

(** The loop of lines 46 to 53, from the documents gathered so far.  The
    list [documents] is extended in place on line 50, inside the [try]:
    however the [try] statement ends, the list holds the documents of the
    file when line 49 returned them, also when the [print] of line 51 then
    raised and the handler reported the file as failed. *)
Fixpoint load_files (ienv : IndexEnv) (txt_files : list string)
    (documents : list Document) : Indexing (list Document) :=
  match txt_files with
  | [] => ix_ret documents
  | file_path :: rest =>
      let extended :=
        match loader_load ienv file_path with
        | Ok docs => documents ++ docs
        | Raise _ => documents
        end in
      ix_bind
        (ix_try
           (ix_bind (ix_external (IxLoadFile file_path) (loader_load ienv file_path))
              (λ _, ix_print ienv (loaded_line file_path)))
           (λ e, ix_print ienv (failed_line file_path e)))
        (λ _, load_files ienv rest extended)
  end.

Definition load_documents (ienv : IndexEnv) : Indexing (list Document) :=
  ix_bind (ix_external (IxGlob (KB_DOCS_PATH +:+ "*.txt")) (Ok (glob_txt ienv)))
    (λ txt_files, load_files ienv txt_files []).

Definition NO_DOCUMENTS : exn :=
  Exception "No knowledge base documents found. Cannot build FAISS index.".

Definition INITIALIZING_LINE : string :=
  "🔄 Initializing OveloAI Knowledge Base with FAISS...".
Definition processed_line (chunks : list Document) : string :=
  "📚 Processed " +:+ str_of_nat (length chunks) +:+ " knowledge chunks".
Definition saved_line (cfg : Settings) : string :=
  "✅ OveloAI Knowledge Base initialized and saved to " +:+ FAISS_DB_PATH cfg +:+ "!".

(** [initialize_knowledge_base]: the instance after the call (the
    assignment of line 76 precedes the save of line 82), and what the call
    does and yields. *)
Definition initialize_knowledge_base (cfg : Settings) (ienv : IndexEnv)
    (self : OveloRAGSystem) : OveloRAGSystem * Indexing VectorStore :=
  let '(t0, loaded) :=
    ix_bind (ix_print ienv INITIALIZING_LINE) (λ _, load_documents ienv) in
  match loaded with
  | Raise e => (self, (t0, Raise e))
  | Ok [] =>
      let '(t1, r) :=
        ix_bind (ix_print ienv "❌ No documents found!") (λ _, ix_raise NO_DOCUMENTS) in
      (self, (t0 ++ t1, r))
  | Ok documents =>
      let chunks := split_documents ienv documents in
      let '(t1, built) :=
        ix_bind (ix_print ienv (processed_line chunks))
          (λ _, ix_external (IxFromDocuments chunks) (from_documents ienv chunks)) in
      match built with
      | Raise e => (self, (t0 ++ t1, Raise e))
      | Ok _ =>
          let store := {| indexed := chunks |} in
          let self := {| vector_store := Some store |} in
          let '(t2, r) :=
            ix_bind (ix_external (IxSaveLocal (FAISS_DB_PATH cfg)) (save_local ienv))
              (λ _, ix_bind (ix_print ienv (saved_line cfg)) (λ _, ix_ret store)) in
          (self, (t0 ++ t1 ++ t2, r))
      end
  end.

(** [query_knowledge(question, k)]; [None] is Python's [None]. *)
Definition query_knowledge (ienv : IndexEnv) (self : OveloRAGSystem)
    (question : string) (k : nat) : Indexing (option (list Document)) :=
  match vector_store self with
  | None =>
      ix_bind (ix_print ienv "❌ Knowledge base not initialized!") (λ _, ix_ret None)
  | Some _ =>
      ix_try
        (ix_bind (ix_external (IxSimilaritySearch question k)
                    (similarity_search ienv question k))
           (λ results, ix_ret (Some results)))
        (λ e, ix_bind (ix_print ienv ("❌ Query error: " +:+ exn_str e))
                (λ _, ix_ret None))
  end.

(** The default of the parameter [k] of [query_knowledge]. *)
Definition DEFAULT_K : nat := 3.

(** The lines an indexing trace hands to [print], and its library calls. *)
Definition ix_printed (t : list IndexEvent) : list string :=
  flat_map (λ ev, match ev with IxPrint line => [line] | _ => [] end) t.

Definition ix_calls (t : list IndexEvent) : list IndexEvent :=
  List.filter (λ ev, match ev with IxPrint _ => false | _ => true end) t.

(** The standard output takes every line. *)
Definition stdout_takes_all (ienv : IndexEnv) : Prop :=
  ∀ line, stdout_write ienv line = Ok tt.

(** The documents of the files that could be read, in the order of the
    files. *)
Definition readable_documents (ienv : IndexEnv) (txt_files : list string)
    : list Document :=
  flat_map (λ file_path, match loader_load ienv file_path with
                         | Ok docs => docs
                         | Raise _ => []
                         end) txt_files.

(** Lines 26 and 27, run when the module is loaded: what exists in the
    file system afterwards. *)
Definition module_load (cfg : Settings) (existing : gset string) : gset string :=
  if decide (FAISS_DB_PATH cfg ∈ existing) then existing
  else {[ FAISS_DB_PATH cfg ]} ∪ existing.

(** One readable file, one unreadable file; a standard output that takes
    every line. *)
Definition index_env_example : IndexEnv := {|
  stdout_write := λ _, Ok tt;
  glob_txt := ["knowledge_base/services.txt"; "knowledge_base/broken.txt"];
  loader_load := λ file_path,
    if String.eqb file_path "knowledge_base/services.txt"
    then Ok [ {| page_content := "We build automation systems.";
                 doc_source := "knowledge_base/services.txt" |} ]
    else Raise (Exception "Error loading knowledge_base/broken.txt");
  split_documents := λ documents, documents;
  from_documents := λ _, Ok tt;
  save_local := Ok tt;
  similarity_search := λ _ _, Raise (Exception "index is empty")
|}.

(** An empty knowledge base folder. *)
Definition index_env_empty : IndexEnv := {|
  stdout_write := stdout_write index_env_example;
  glob_txt := [];
  loader_load := loader_load index_env_example;
  split_documents := split_documents index_env_example;
  from_documents := from_documents index_env_example;
  save_local := save_local index_env_example;
  similarity_search := similarity_search index_env_example
|}.

(** How Python writes, in the text of a [UnicodeEncodeError], the emoji
    that a line of the script starts with. *)
Definition leading_emoji_escape (line : string) : string :=
  if String.prefix "🔄" line then "\U0001f504"
  else if String.prefix "❌" line then "\u274c"
  else if String.prefix "✅" line then "\u2705"
  else if String.prefix "📚" line then "\U0001f4da"
  else "".

(** The same files on a standard output whose encoding is ASCII: a line
    that starts with an emoji, as all but one of the script's lines do,
    makes [print] raise. *)
Definition index_env_ascii_stdout : IndexEnv := {|
  stdout_write := λ line,
    if is_ascii_text line then Ok tt
    else Raise (Exception ("'ascii' codec can't encode character '" +:+
                           leading_emoji_escape line +:+
                           "' in position 0: ordinal not in range(128)"));
  glob_txt := glob_txt index_env_example;
  loader_load := loader_load index_env_example;
  split_documents := split_documents index_env_example;
  from_documents := from_documents index_env_example;
  save_local := save_local index_env_example;
  similarity_search := similarity_search index_env_example
|}.

(* ===================================================================== *)
(** ** Substring search                                                   *)
(* ===================================================================== *)

Lemma prefix_spec (p s : string) :
  String.prefix p s = true ↔ ∃ b, s = p +:+ b.
Proof.
  revert s. induction p as [|c p IH]; intros s; simpl.
  - split; [intros _; exists s; reflexivity | destruct s; reflexivity].
  - destruct s as [|d s]; simpl.
    + split; [discriminate | intros [b Hb]; simpl in Hb; discriminate].
    + destruct (Ascii.ascii_dec c d) as [->|Hne].
      * rewrite IH. split; intros [b Hb]; exists b.
        -- simpl. now rewrite Hb.
        -- simpl in Hb. now injection Hb.
      * split; [discriminate | intros [b Hb]; simpl in Hb; injection Hb as Hd _; congruence].
Qed.

(** [str_contains] decides "is a substring of". *)
Lemma str_contains_spec (p s : string) :
  str_contains p s = true ↔ ∃ a b, s = a +:+ p +:+ b.
Proof.
  induction s as [|c s IH].
  - change (str_contains p EmptyString) with (String.prefix p EmptyString || false).
    rewrite orb_false_r, prefix_spec. split.
    + intros [b Hb]. exists EmptyString, b. exact Hb.
    + intros [a [b Hab]]. destruct a; [exists b; exact Hab | simpl in Hab; discriminate].
  - change (str_contains p (String c s))
      with (String.prefix p (String c s) || str_contains p s).
    rewrite orb_true_iff, IH, prefix_spec. split.
    + intros [[b Hb] | [a [b Hab]]].
      * exists EmptyString, b. exact Hb.
      * exists (String c a), b. simpl. now rewrite Hab.
    + intros [a [b Hab]]. destruct a as [|d a]; simpl in Hab.
      * left. exists b. exact Hab.
      * right. exists a, b. now injection Hab.
Qed.

Lemma any_spec {A} (f : A → bool) (xs : list A) :
  any f xs = true ↔ ∃ x, In x xs ∧ f x = true.
Proof. unfold any. apply existsb_exists. Qed.

(* ===================================================================== *)
(** ** The notification sender                                            *)
(* ===================================================================== *)

(** Case analysis on what the mail relay answers at each step. *)
Ltac smtp_cases env :=
  destruct (smtp_connect env) as [[]|?];
  destruct (smtp_starttls env) as [[]|?];
  destruct (smtp_login env) as [[]|?];
  destruct (smtp_sendmail env) as [[]|?];
  destruct (smtp_quit env) as [[]|?].

(** The sender ends as the assembly of the message ends: whatever the relay
    does is caught. *)
Lemma send_lead_email_outcome cfg env lead_data history :
  outcome (send_lead_email cfg env lead_data history) =
  if smtp_configured cfg then mime_text env (lead_body lead_data history) else Ok tt.
Proof.
  unfold send_lead_email, assemble_message, lead_delivery, smtp_delivery.
  destruct (smtp_configured cfg); [|reflexivity].
  destruct (mime_text env (lead_body lead_data history)) as [[]|?]; [|reflexivity].
  smtp_cases env; reflexivity.
Qed.

Lemma send_lead_email_returns cfg env lead_data history :
  smtp_configured cfg = false ∨ mime_text env (lead_body lead_data history) = Ok tt →
  outcome (send_lead_email cfg env lead_data history) = Ok tt.
Proof.
  rewrite send_lead_email_outcome. intros [-> | H]; [reflexivity|].
  rewrite H. now destruct (smtp_configured cfg).
Qed.

(** When the message cannot be assembled, the exception leaves the sender
    before anything is printed and before the relay is contacted. *)
Lemma send_lead_email_assembly_raises cfg env lead_data history e :
  smtp_configured cfg = true →
  mime_text env (lead_body lead_data history) = Raise e →
  send_lead_email cfg env lead_data history =
  ([EvSendLeadEmail lead_data history], Raise e).
Proof.
  intros Hc Hm. unfold send_lead_email, assemble_message.
  rewrite Hc, Hm. reflexivity.
Qed.

Lemma send_lead_email_attempts cfg env lead_data history :
  notification_attempts (events (send_lead_email cfg env lead_data history)) =
  [EvSendLeadEmail lead_data history].
Proof.
  unfold send_lead_email, assemble_message, lead_delivery, smtp_delivery.
  destruct (smtp_configured cfg); [|reflexivity].
  destruct (mime_text env (lead_body lead_data history)) as [[]|?]; [|reflexivity].
  smtp_cases env; reflexivity.
Qed.

Lemma send_lead_email_unconfigured cfg env lead_data history :
  smtp_configured cfg = false →
  events (send_lead_email cfg env lead_data history) =
  [EvSendLeadEmail lead_data history;
   EvPrint "SMTP credentials are not fully configured. Email will not be sent."].
Proof. intros H. unfold send_lead_email. rewrite H. reflexivity. Qed.

Lemma send_lead_email_failure cfg env lead_data history e :
  smtp_configured cfg = true →
  mime_text env (lead_body lead_data history) = Ok tt →
  outcome (lead_delivery cfg env lead_data history) = Raise e →
  events (send_lead_email cfg env lead_data history) =
  EvSendLeadEmail lead_data history ::
  events (lead_delivery cfg env lead_data history) ++
  [EvPrint ("Failed to send email: " +:+ exn_str e)].
Proof.
  intros Hc Hm. unfold send_lead_email, assemble_message. rewrite Hc, Hm.
  destruct (lead_delivery cfg env lead_data history) as [t [[]|e']]; simpl.
  - discriminate.
  - intros [= ->]. reflexivity.
Qed.

Lemma send_lead_email_success cfg env lead_data history :
  smtp_configured cfg = true →
  mime_text env (lead_body lead_data history) = Ok tt →
  outcome (lead_delivery cfg env lead_data history) = Ok tt →
  events (send_lead_email cfg env lead_data history) =
  EvSendLeadEmail lead_data history ::
  events (lead_delivery cfg env lead_data history) ++
  [EvPrint "Lead email sent successfully!"].
Proof.
  intros Hc Hm. unfold send_lead_email, assemble_message. rewrite Hc, Hm.
  destruct (lead_delivery cfg env lead_data history) as [t [[]|e']]; simpl.
  - reflexivity.
  - discriminate.
Qed.

(* ===================================================================== *)
(** ** The branches of the conversation controller                        *)
(* ===================================================================== *)

Lemma get_session_existing now sessions sid session :
  sessions !! sid = Some session →
  get_session now sessions sid = (sessions, session).
Proof. intros H. unfold get_session. now rewrite H. Qed.

Lemma get_session_absent now sessions sid :
  sessions !! sid = None →
  get_session now sessions sid = (<[sid := new_session now]> sessions, new_session now).
Proof. intros H. unfold get_session. now rewrite H. Qed.

(** The store that [get_session] leaves maps the identifier to the session
    it returns. *)
Lemma get_session_lookup now sessions sid :
  (get_session now sessions sid).1 !! sid = Some (get_session now sessions sid).2.
Proof.
  unfold get_session. destruct (sessions !! sid) eqn:E; simpl.
  - exact E.
  - apply lookup_insert_eq.
Qed.

Lemma main_logic_flow_get_name str_lower cfg env session text :
  awaiting_action session = Some "get_name" →
  main_logic_flow str_lower cfg env session text =
  (set_awaiting_action (Some "get_email") (set_user_data "name" text session),
   ret {| response_text := name_acknowledgment text;
          reply_confidence := 9 # 10;
          reply_requires_action := Some "get_email" |}).
Proof.
  intros H. unfold main_logic_flow. rewrite H.
  destruct (decide _) as [_|Hn]; [reflexivity | now destruct Hn].
Qed.

Lemma main_logic_flow_get_email_valid str_lower cfg env session text :
  awaiting_action session = Some "get_email" →
  str_contains "@" text && str_contains "." text = true →
  main_logic_flow str_lower cfg env session text =
  (set_awaiting_action None (set_user_data "email" text session),
   run send_lead_email cfg env (<["email" := text]> (user_data session))
         (message_history session) then
   ret {| response_text := email_confirmation text;
          reply_confidence := 1 # 1;
          reply_requires_action := None |}).
Proof.
  intros H Hv. unfold main_logic_flow. rewrite H, Hv.
  destruct (decide _) as [Hn|_]; [discriminate Hn|].
  destruct (decide _) as [_|Hn]; [reflexivity | now destruct Hn].
Qed.

Lemma main_logic_flow_get_email_invalid str_lower cfg env session text :
  awaiting_action session = Some "get_email" →
  str_contains "@" text && str_contains "." text = false →
  main_logic_flow str_lower cfg env session text =
  (set_awaiting_action (Some "get_email") session,
   ret {| response_text := EMAIL_RETRY_PROMPT;
          reply_confidence := 5 # 10;
          reply_requires_action := Some "get_email" |}).
Proof.
  intros H Hv. unfold main_logic_flow. rewrite H, Hv.
  destruct (decide _) as [Hn|_]; [discriminate Hn|].
  destruct (decide _) as [_|Hn]; [reflexivity | now destruct Hn].
Qed.

Lemma main_logic_flow_start_capture str_lower cfg env session text :
  awaiting_action session = None →
  detect_lead_intent str_lower cfg text = true →
  main_logic_flow str_lower cfg env session text =
  (set_awaiting_action (Some "get_name") session,
   ret {| response_text := NAME_PROMPT;
          reply_confidence := 9 # 10;
          reply_requires_action := Some "get_name" |}).
Proof.
  intros H Hd. unfold main_logic_flow. rewrite H, Hd.
  destruct (decide _) as [Hn|_]; [discriminate Hn|].
  destruct (decide _) as [Hn|_]; [discriminate Hn|]. reflexivity.
Qed.

Lemma main_logic_flow_fallback str_lower cfg env session text :
  awaiting_action session = None →
  detect_lead_intent str_lower cfg text = false →
  main_logic_flow str_lower cfg env session text =
  (session,
   do ai <- get_ai_response cfg env text in
   ret {| response_text := ai_response ai;
          reply_confidence := ai_confidence ai;
          reply_requires_action := None |}).
Proof.
  intros H Hd. unfold main_logic_flow. rewrite H, Hd.
  destruct (decide _) as [Hn|_]; [discriminate Hn|].
  destruct (decide _) as [Hn|_]; [discriminate Hn|]. reflexivity.
Qed.

(** What every branch leaves alone, and what it preserves. *)
Lemma main_logic_flow_frame str_lower cfg env session text :
  let session' := (main_logic_flow str_lower cfg env session text).1 in
  created_at session' = created_at session ∧
  message_history session' = message_history session ∧
  (known_action (awaiting_action session) → known_action (awaiting_action session')).
Proof.
  unfold main_logic_flow, known_action.
  repeat (destruct (decide _)); simpl;
    try destruct (_ && _); try destruct (detect_lead_intent _ _ _); simpl; auto 6.
Qed.

(** [chat_endpoint] in terms of the session it works on and the branch it
    takes. *)
Lemma chat_endpoint_unfold str_lower cfg env sessions request_data :
  let sid := resolve_session_id env request_data in
  let got := get_session (now_created env) sessions sid in
  let flow := main_logic_flow str_lower cfg env
                (append_message (user_message env (message request_data)) got.2)
                (message request_data) in
  chat_endpoint str_lower cfg env sessions request_data =
  match outcome flow.2 with
  | Raise e => (<[sid := flow.1]> got.1, (events flow.2, Raise e))
  | Ok reply =>
      (<[sid := append_message (assistant_message env (response_text reply)) flow.1]> got.1,
       (events flow.2,
        Ok {| response := response_text reply;
              resp_session_id := sid;
              confidence := reply_confidence reply;
              requires_action := reply_requires_action reply |}))
  end.
Proof.
  unfold chat_endpoint. simpl.
  destruct (get_session _ _ _) as [st s0]. simpl.
  destruct (main_logic_flow _ _ _ _ _) as [s1 [t [reply|e]]]; reflexivity.
Qed.

(** The accepted email step, in terms of how the notification sender ends:
    the session is written before the sender is called, the assistant entry
    after it has returned. *)
Lemma chat_endpoint_email_valid str_lower cfg env sessions request_data session :
  let sid := resolve_session_id env request_data in
  let text := message request_data in
  let history := message_history session ++ [user_message env text] in
  let lead := <["email" := text]> (user_data session) in
  sessions !! sid = Some session →
  awaiting_action session = Some "get_email" →
  str_contains "@" text && str_contains "." text = true →
  chat_endpoint str_lower cfg env sessions request_data =
  match outcome (send_lead_email cfg env lead history) with
  | Ok _ =>
      (<[sid := {| created_at := created_at session;
                   message_history :=
                     history ++ [assistant_message env (email_confirmation text)];
                   awaiting_action := None;
                   user_data := lead |}]> sessions,
       (events (send_lead_email cfg env lead history),
        Ok {| response := email_confirmation text;
              resp_session_id := sid;
              confidence := 1 # 1;
              requires_action := None |}))
  | Raise e =>
      (<[sid := {| created_at := created_at session;
                   message_history := history;
                   awaiting_action := None;
                   user_data := lead |}]> sessions,
       (events (send_lead_email cfg env lead history), Raise e))
  end.
Proof.
  intros sid text history lead Hs Ha Hv.
  rewrite chat_endpoint_unfold.
  rewrite (get_session_existing _ _ _ _ Hs).
  rewrite main_logic_flow_get_email_valid; [| exact Ha | exact Hv].
  cbn [fst snd append_message set_awaiting_action set_user_data
       message_history user_data created_at awaiting_action].
  fold text history lead. fold sid.
  destruct (send_lead_email cfg env lead history) as [t [[]|e]];
    cbn; rewrite ?app_nil_r; reflexivity.
Qed.

(* ===================================================================== *)
(** ** Lead capture: the name step and the email step                     *)
(* ===================================================================== *)


(** C2.  Email step, rejected.  When the session of the call awaits
    [get_email] and the message text lacks an at sign or lacks a dot, the
    call changes nothing of the session but its history (the two appended
    entries): [awaiting_action] is still [get_email] and [user_data] is the
    one before, so no email appears in it.  The answer is the retry prompt
    with confidence 0.5 and required action [get_email], nothing outside is
    called, and no other session changes. *)
Theorem chat_email_step_rejects str_lower cfg env sessions request_data session :
  let sid := resolve_session_id env request_data in
  let text := message request_data in
  sessions !! sid = Some session →
  awaiting_action session = Some "get_email" →
  str_contains "@" text = false ∨ str_contains "." text = false →
  let session' := {| created_at := created_at session;
                     message_history :=
                       message_history session ++
                       [user_message env text;
                        assistant_message env
                          "That doesn't look like a valid email. Can you please try again?"];
                     awaiting_action := Some "get_email";
                     user_data := user_data session |} in
  chat_endpoint str_lower cfg env sessions request_data =
    (<[sid := session']> sessions,
     ([],
      Ok {| response := "That doesn't look like a valid email. Can you please try again?";
            resp_session_id := sid;
            confidence := 5 # 10;
            requires_action := Some "get_email" |}))
  ∧ user_data session' = user_data session
  ∧ (user_data session !! "email" = None → user_data session' !! "email" = None)
  ∧ (∀ other, other ≠ sid →
       (chat_endpoint str_lower cfg env sessions request_data).1 !! other = sessions !! other).
Proof.
  intros sid text Hs Ha Hbad session'.
  assert (Hv : str_contains "@" text && str_contains "." text = false).
  { destruct Hbad as [-> | ->]; [reflexivity | apply andb_false_r]. }
  assert (Heq : chat_endpoint str_lower cfg env sessions request_data =
    (<[sid := session']> sessions,
     ([], Ok {| response := EMAIL_RETRY_PROMPT; resp_session_id := sid;
                confidence := 5 # 10; requires_action := Some "get_email" |}))).
  { rewrite chat_endpoint_unfold.
    rewrite (get_session_existing _ _ _ _ Hs).
    rewrite main_logic_flow_get_email_invalid; [| exact Ha | exact Hv].
    unfold append_message, set_awaiting_action. cbn.
    unfold session'. rewrite <- app_assoc. reflexivity. }
  split; [exact Heq|]. split; [reflexivity|]. split; [auto|].
  intros other Hne. rewrite Heq. cbn. now apply lookup_insert_ne.
Qed.

(** C3.  Name step.  When the session of the call awaits [get_name], then
    whatever the message text is, the call stores it verbatim under
    [user_data["name"]], moves [awaiting_action] to [get_email], and answers
    with the acknowledgment template around the exact text, with confidence
    0.9 and required action [get_email]. *)
Theorem chat_name_step str_lower cfg env sessions request_data session :
  let sid := resolve_session_id env request_data in
  let text := message request_data in
  sessions !! sid = Some session →
  awaiting_action session = Some "get_name" →
  let response_text := "Thanks " +:+ text +:+ "! What's your email address?" in
  let session' := {| created_at := created_at session;
                     message_history :=
                       message_history session ++
                       [user_message env text; assistant_message env response_text];
                     awaiting_action := Some "get_email";
                     user_data := <["name" := text]> (user_data session) |} in
  chat_endpoint str_lower cfg env sessions request_data =
    (<[sid := session']> sessions,
     ([],
      Ok {| response := response_text;
            resp_session_id := sid;
            confidence := 9 # 10;
            requires_action := Some "get_email" |}))
  ∧ user_data session' !! "name" = Some text
  ∧ str_contains text response_text = true.
Proof.
  intros sid text Hs Ha response_text session'.
  split; [|split].
  - rewrite chat_endpoint_unfold.
    rewrite (get_session_existing _ _ _ _ Hs).
    rewrite main_logic_flow_get_name; [| exact Ha].
    unfold append_message, set_awaiting_action, set_user_data. cbn.
    unfold session'. rewrite <- app_assoc. reflexivity.
  - apply lookup_insert_eq.
  - apply str_contains_spec. eexists _, _. reflexivity.
Qed.



Lemma chat_email_step_rejects_witness :
  str_contains "@" "ada at example.com" = false
  ∧ snd (chat_endpoint ascii_lower settings_with_smtp env_all_up
           {[ "s1" := session_awaiting_email ]}
           (request "ada at example.com" (Some "s1"))) =
    ([],
     Ok {| response := "That doesn't look like a valid email. Can you please try again?";
           resp_session_id := "s1";
           confidence := 5 # 10;
           requires_action := Some "get_email" |}).
Proof.
  split; [reflexivity|].
  destruct (chat_email_step_rejects ascii_lower settings_with_smtp env_all_up
              {[ "s1" := session_awaiting_email ]}
              (request "ada at example.com" (Some "s1")) session_awaiting_email)
    as [H _]; [reflexivity | reflexivity | left; reflexivity |].
  rewrite H. reflexivity.
Defined.

Lemma chat_name_step_witness :
  awaiting_action session_awaiting_name = Some "get_name"
  ∧ snd (chat_endpoint ascii_lower default_settings env_all_up
           {[ "s1" := session_awaiting_name ]}
           (request "Ada" (Some "s1"))) =
    ([],
     Ok {| response := "Thanks Ada! What's your email address?";
           resp_session_id := "s1";
           confidence := 9 # 10;
           requires_action := Some "get_email" |}).
Proof.
  split; [reflexivity|].
  destruct (chat_name_step ascii_lower default_settings env_all_up
              {[ "s1" := session_awaiting_name ]}
              (request "Ada" (Some "s1")) session_awaiting_name)
    as [H _]; [reflexivity | reflexivity |].
  rewrite H. reflexivity.
Defined.

(* ===================================================================== *)
(** ** The whole call, whatever the branch                                *)
(* ===================================================================== *)

(** The store after a call is the store before with the entry of the call's
    session overwritten; the entry carries the assistant message exactly
    when the main logic flow returned. *)
Lemma chat_endpoint_store str_lower cfg env sessions request_data :
  let sid := resolve_session_id env request_data in
  let s0 := (get_session (now_created env) sessions sid).2 in
  let flow := main_logic_flow str_lower cfg env
                (append_message (user_message env (message request_data)) s0)
                (message request_data) in
  (chat_endpoint str_lower cfg env sessions request_data).1 =
  <[sid := match outcome flow.2 with
           | Ok reply => append_message (assistant_message env (response_text reply)) flow.1
           | Raise _ => flow.1
           end]> sessions.
Proof.
  intros sid s0 flow. rewrite chat_endpoint_unfold. fold sid. fold s0. fold flow.
  assert (Hins : ∀ s, <[sid := s]> (get_session (now_created env) sessions sid).1 =
                      <[sid := s]> sessions).
  { intros s. unfold get_session. destruct (sessions !! sid); simpl;
      [reflexivity | apply insert_insert_eq]. }
  destruct (outcome flow.2); simpl; apply Hins.
Qed.

Lemma chat_endpoint_result str_lower cfg env sessions request_data :
  let sid := resolve_session_id env request_data in
  let s0 := (get_session (now_created env) sessions sid).2 in
  let flow := main_logic_flow str_lower cfg env
                (append_message (user_message env (message request_data)) s0)
                (message request_data) in
  (chat_endpoint str_lower cfg env sessions request_data).2 =
  (events flow.2,
   match outcome flow.2 with
   | Ok reply => Ok {| response := response_text reply;
                       resp_session_id := sid;
                       confidence := reply_confidence reply;
                       requires_action := reply_requires_action reply |}
   | Raise e => Raise e
   end).
Proof.
  intros sid s0 flow. rewrite chat_endpoint_unfold. fold sid. fold s0. fold flow.
  destruct (outcome flow.2); reflexivity.
Qed.

(* ===================================================================== *)
(** ** Starting a capture                                                 *)
(* ===================================================================== *)

(** The intent detector in the words of its description: the lowercased
    text has one of the configured phrases as a substring. *)
Lemma detect_lead_intent_spec str_lower cfg text :
  detect_lead_intent str_lower cfg text = true ↔
  ∃ phrase, In phrase (LEAD_CAPTURE_PHRASES cfg) ∧
    ∃ before after, str_lower text = before +:+ phrase +:+ after.
Proof.
  unfold detect_lead_intent. rewrite any_spec.
  split; intros [phrase [Hin H]]; exists phrase; (split; [exact Hin|]);
    now apply str_contains_spec.
Qed.

(** With the default phrases, and a [str.lower] that is right on ASCII
    text, no phrase occurs in "what is your pricing?". *)
Lemma pricing_has_no_trigger_phrase str_lower cfg :
  lower_agrees_on_ascii str_lower →
  LEAD_CAPTURE_PHRASES cfg = default_LEAD_CAPTURE_PHRASES →
  detect_lead_intent str_lower cfg "what is your pricing?" = false.
Proof.
  intros Hl Hp. unfold detect_lead_intent. rewrite Hp, Hl; reflexivity.
Qed.

(** C4 (as amended).  The intent detector lowercases the text and looks for
    a configured phrase as a substring.  When the session of the call (an
    existing one, or the one just created) awaits nothing and the detector
    fires, the call sets [awaiting_action] to [get_name] and answers with
    the name prompt, confidence 0.9 and required action [get_name].  Under
    the default phrases the message "what is your pricing?" does not fire
    the detector: on a fresh session it goes to the retrieval fallback,
    leaves [awaiting_action] at [None], and any response it returns has no
    required action. *)
Theorem chat_start_capture str_lower cfg :
  (∀ text,
     detect_lead_intent str_lower cfg text = true ↔
     ∃ phrase, In phrase (LEAD_CAPTURE_PHRASES cfg) ∧
       ∃ before after, str_lower text = before +:+ phrase +:+ after)
  ∧ (∀ env sessions request_data,
       let sid := resolve_session_id env request_data in
       let text := message request_data in
       let session := (get_session (now_created env) sessions sid).2 in
       awaiting_action session = None →
       detect_lead_intent str_lower cfg text = true →
       chat_endpoint str_lower cfg env sessions request_data =
         (<[sid := {| created_at := created_at session;
                      message_history :=
                        message_history session ++
                        [user_message env text;
                         assistant_message env
                           "Awesome! Let's get you started. What's your name?"];
                      awaiting_action := Some "get_name";
                      user_data := user_data session |}]> sessions,
          ([],
           Ok {| response := "Awesome! Let's get you started. What's your name?";
                 resp_session_id := sid;
                 confidence := 9 # 10;
                 requires_action := Some "get_name" |})))
  ∧ (lower_agrees_on_ascii str_lower →
     LEAD_CAPTURE_PHRASES cfg = default_LEAD_CAPTURE_PHRASES →
     detect_lead_intent str_lower cfg "what is your pricing?" = false
     ∧ ∀ env sessions sid_opt,
         let request_data := request "what is your pricing?" sid_opt in
         let sid := resolve_session_id env request_data in
         let call := chat_endpoint str_lower cfg env sessions request_data in
         sessions !! sid = None →
         (∃ session', call.1 !! sid = Some session' ∧ awaiting_action session' = None)
         ∧ events call.2 = events (get_ai_response cfg env "what is your pricing?")
         ∧ ∀ r, outcome call.2 = Ok r → requires_action r = None).
Proof.
  split; [intros text; apply detect_lead_intent_spec | split].
  - intros env sessions request_data sid text session Ha Hd.
    apply injective_projections.
    + rewrite chat_endpoint_store. fold sid. fold session. fold text.
      rewrite main_logic_flow_start_capture; [| exact Ha | exact Hd].
      unfold append_message, set_awaiting_action. cbn.
      rewrite <- app_assoc. reflexivity.
    + rewrite chat_endpoint_result. fold sid. fold session. fold text.
      rewrite main_logic_flow_start_capture; [| exact Ha | exact Hd].
      reflexivity.
  - intros Hl Hp.
    pose proof (pricing_has_no_trigger_phrase str_lower cfg Hl Hp) as Hd.
    split; [exact Hd|].
    intros env sessions sid_opt request_data sid call Hs.
    unfold call. rewrite chat_endpoint_store, chat_endpoint_result.
    fold sid. rewrite (get_session_absent _ _ _ Hs).
    cbn [fst snd message request_data request].
    rewrite main_logic_flow_fallback; [| reflexivity | exact Hd].
    cbn [fst snd].
    destruct (get_ai_response cfg env "what is your pricing?") as [t [ai|e]];
      cbn; rewrite ?app_nil_r; (split; [|split]).
    + eexists. split; [apply lookup_insert_eq | reflexivity].
    + reflexivity.
    + intros r [= <-]. reflexivity.
    + eexists. split; [apply lookup_insert_eq | reflexivity].
    + reflexivity.
    + intros r [=].
Qed.

Lemma chat_start_capture_witness :
  detect_lead_intent ascii_lower default_settings "What is the PRICE?" = true
  ∧ chat_endpoint ascii_lower default_settings env_all_up ∅
      (request "What is the PRICE?" (Some "s1")) =
    ({[ "s1" :=
          {| created_at := now_created env_all_up;
             message_history :=
               [user_message env_all_up "What is the PRICE?";
                assistant_message env_all_up
                  "Awesome! Let's get you started. What's your name?"];
             awaiting_action := Some "get_name";
             user_data := ∅ |} ]},
     ([],
      Ok {| response := "Awesome! Let's get you started. What's your name?";
            resp_session_id := "s1";
            confidence := 9 # 10;
            requires_action := Some "get_name" |})).
Proof.
  split; [reflexivity|].
  destruct (chat_start_capture ascii_lower default_settings) as [_ [H _]].
  rewrite (H env_all_up ∅ (request "What is the PRICE?" (Some "s1")));
    reflexivity.
Defined.

(** The specification's own example fails: on a fresh session and with the default
    phrases, "what is your pricing?" (ASCII text, so lowercasing is not in
    question) does not start a capture.  With the knowledge store absent the
    call answers with the knowledge-base error, confidence 0.0 and no
    required action, and the session still awaits nothing. *)
Lemma pricing_does_not_start_capture :
  is_ascii_text "what is your pricing?" = true
  ∧ detect_lead_intent ascii_lower default_settings "what is your pricing?" = false
  ∧ chat_endpoint ascii_lower default_settings env_no_store ∅
      (request "what is your pricing?" (Some "s1")) =
    ({[ "s1" :=
          {| created_at := now_created env_no_store;
             message_history :=
               [user_message env_no_store "what is your pricing?";
                assistant_message env_no_store KNOWLEDGE_BASE_NOT_FOUND];
             awaiting_action := None;
             user_data := ∅ |} ]},
     ([EvLoadEmbeddings "sentence-transformers/all-MiniLM-L6-v2";
       EvPathExists "faiss_db"],
      Ok {| response := KNOWLEDGE_BASE_NOT_FOUND;
            resp_session_id := "s1";
            confidence := 0 # 1;
            requires_action := None |})).
Proof. split; [reflexivity | split; reflexivity]. Qed.

(* ===================================================================== *)
(** ** The retrieval fallback without a knowledge store                   *)
(* ===================================================================== *)

(** Without a knowledge store, [get_ai_response] never reaches the vector
    store or the language model, whether or not the embedding model loads. *)
Lemma get_ai_response_no_store_trace cfg env text :
  path_exists env = false →
  invokes_answer_generator (events (get_ai_response cfg env text)) = false.
Proof.
  intros Hp. unfold get_ai_response. rewrite Hp.
  destruct (embeddings_init env) as [[]|e]; reflexivity.
Qed.

Lemma get_ai_response_no_store cfg env text :
  embeddings_init env = Ok tt →
  path_exists env = false →
  get_ai_response cfg env text =
  ([EvLoadEmbeddings (HUGGINGFACE_EMBEDDING_MODEL cfg); EvPathExists (FAISS_DB_PATH cfg)],
   Ok {| ai_response := KNOWLEDGE_BASE_NOT_FOUND; ai_confidence := 0 # 1 |}).
Proof. intros He Hp. unfold get_ai_response. rewrite He, Hp. reflexivity. Qed.

Lemma get_ai_response_no_model cfg env text e :
  embeddings_init env = Raise e →
  get_ai_response cfg env text =
  ([EvLoadEmbeddings (HUGGINGFACE_EMBEDDING_MODEL cfg)], Raise e).
Proof. intros He. unfold get_ai_response. rewrite He. reflexivity. Qed.

(** C5 (as amended).  A message reaches the fallback when the session of
    the call awaits nothing and the detector does not fire.  If the path of
    the knowledge store does not exist, the call never loads the vector
    store and never invokes retrieval or the language model.  The answer
    function first constructs the embedding model; when that returns, the
    answer is exactly the knowledge-base error with confidence 0.0 (and the
    call returns it with no required action); when that raises, the
    exception leaves the answer function and the call. *)
Theorem chat_fallback_without_store str_lower cfg env sessions request_data :
  let sid := resolve_session_id env request_data in
  let text := message request_data in
  let session := (get_session (now_created env) sessions sid).2 in
  let call := chat_endpoint str_lower cfg env sessions request_data in
  awaiting_action session = None →
  detect_lead_intent str_lower cfg text = false →
  path_exists env = false →
  events call.2 = events (get_ai_response cfg env text)
  ∧ invokes_answer_generator (events call.2) = false
  ∧ (embeddings_init env = Ok tt →
       get_ai_response cfg env text =
         ([EvLoadEmbeddings (HUGGINGFACE_EMBEDDING_MODEL cfg);
           EvPathExists (FAISS_DB_PATH cfg)],
          Ok {| ai_response :=
                  "Error: Knowledge base not found. Please ensure your FAISS vector database has been created.";
                ai_confidence := 0 # 1 |})
       ∧ outcome call.2 =
           Ok {| response :=
                   "Error: Knowledge base not found. Please ensure your FAISS vector database has been created.";
                 resp_session_id := sid;
                 confidence := 0 # 1;
                 requires_action := None |})
  ∧ (∀ e, embeddings_init env = Raise e →
       outcome (get_ai_response cfg env text) = Raise e ∧ outcome call.2 = Raise e).
Proof.
  intros sid text session call Ha Hd Hp.
  assert (Hcall : call.2 =
    (events (get_ai_response cfg env text),
     match outcome (get_ai_response cfg env text) with
     | Ok ai => Ok {| response := ai_response ai; resp_session_id := sid;
                      confidence := ai_confidence ai; requires_action := None |}
     | Raise e => Raise e
     end)).
  { unfold call. rewrite chat_endpoint_result. fold sid. fold session. fold text.
    rewrite main_logic_flow_fallback; [| exact Ha | exact Hd].
    cbn [fst snd].
    destruct (get_ai_response cfg env text) as [t [ai|e]]; cbn;
      rewrite ?app_nil_r; reflexivity. }
  rewrite Hcall. cbn [events outcome fst snd].
  split; [reflexivity|].
  split; [now apply get_ai_response_no_store_trace|].
  split.
  - intros He. rewrite (get_ai_response_no_store cfg env text He Hp).
    split; reflexivity.
  - intros e He. rewrite (get_ai_response_no_model cfg env text e He).
    split; reflexivity.
Qed.

Lemma chat_fallback_without_store_witness :
  detect_lead_intent ascii_lower default_settings "how does your automation work?" = false
  ∧ path_exists env_no_store = false
  ∧ outcome (chat_endpoint ascii_lower default_settings env_no_store ∅
               (request "how does your automation work?" None)).2 =
    Ok {| response :=
            "Error: Knowledge base not found. Please ensure your FAISS vector database has been created.";
          resp_session_id := "3b241101-e2bb-4255-a0c1-d2e3f4a5b6c7";
          confidence := 0 # 1;
          requires_action := None |}.
Proof.
  split; [reflexivity | split; [reflexivity|]].
  destruct (chat_fallback_without_store ascii_lower default_settings env_no_store ∅
              (request "how does your automation work?" None))
    as [_ [_ [H _]]]; [reflexivity | reflexivity | reflexivity |].
  destruct (H eq_refl) as [_ ->]. reflexivity.
Defined.

(** The property as the specification states it fails when the embedding model cannot be
    constructed: the path of the knowledge store does not exist, the message
    reaches the fallback, and the answer function raises instead of
    returning the fixed string (line 25 runs before the test of line 27). *)
Lemma fallback_without_store_may_raise :
  path_exists env_no_store_no_model = false
  ∧ detect_lead_intent ascii_lower default_settings "how does your automation work?" = false
  ∧ get_ai_response default_settings env_no_store_no_model
      "how does your automation work?" =
    ([EvLoadEmbeddings "sentence-transformers/all-MiniLM-L6-v2"],
     Raise (Exception "sentence-transformers model could not be loaded"))
  ∧ (chat_endpoint ascii_lower default_settings env_no_store_no_model ∅
       (request "how does your automation work?" (Some "s1"))).2 =
    ([EvLoadEmbeddings "sentence-transformers/all-MiniLM-L6-v2"],
     Raise (Exception "sentence-transformers model could not be loaded")).
Proof. repeat split. Qed.

(* ===================================================================== *)
(** ** Which failures of the notification sender stay inside it           *)
(* ===================================================================== *)

(** C8.  [send_lead_email] does not keep every failure inside.  With
    incomplete SMTP settings it logs that, contacts nothing and returns; once
    the message is assembled it returns whatever the mail relay does, and
    logs a failure of the delivery with the exception's text.  But the
    message is assembled ([MIMEText(body)], line 45) before the [try] of
    line 50: when the mail relay is configured and the body cannot be
    encoded, the exception of [MIMEText] reaches the caller, nothing is
    logged, and the accepted email step of [chat_endpoint], which calls
    [send_lead_email] unguarded (line 88 of [main.py]), raises it instead of
    returning the confirmation. *)
Theorem send_lead_email_raises_from_assembly str_lower cfg env :
  (∀ lead_data history,
     smtp_configured cfg = false →
     send_lead_email cfg env lead_data history =
       ([EvSendLeadEmail lead_data history;
         EvPrint "SMTP credentials are not fully configured. Email will not be sent."],
        Ok tt))
  ∧ (∀ lead_data history,
       smtp_configured cfg = true →
       mime_text env (lead_body lead_data history) = Ok tt →
       outcome (send_lead_email cfg env lead_data history) = Ok tt
       ∧ ∀ e, outcome (lead_delivery cfg env lead_data history) = Raise e →
              events (send_lead_email cfg env lead_data history) =
                EvSendLeadEmail lead_data history ::
                events (lead_delivery cfg env lead_data history) ++
                [EvPrint ("Failed to send email: " +:+ exn_str e)])
  ∧ (∀ lead_data history e,
       smtp_configured cfg = true →
       mime_text env (lead_body lead_data history) = Raise e →
       send_lead_email cfg env lead_data history =
         ([EvSendLeadEmail lead_data history], Raise e))
  ∧ (∀ sessions request_data session e,
       let sid := resolve_session_id env request_data in
       let text := message request_data in
       let history := message_history session ++ [user_message env text] in
       let lead := <["email" := text]> (user_data session) in
       sessions !! sid = Some session →
       awaiting_action session = Some "get_email" →
       str_contains "@" text = true →
       str_contains "." text = true →
       smtp_configured cfg = true →
       mime_text env (lead_body lead history) = Raise e →
       (chat_endpoint str_lower cfg env sessions request_data).2 =
         ([EvSendLeadEmail lead history], Raise e)).
Proof.
  split; [|split; [|split]].
  - intros lead_data history Hc. apply injective_projections.
    + now apply send_lead_email_unconfigured.
    + apply send_lead_email_returns. now left.
  - intros lead_data history Hc Hm. split.
    + apply send_lead_email_returns. now right.
    + intros e. now apply send_lead_email_failure.
  - intros. now apply send_lead_email_assembly_raises.
  - intros sessions request_data session e sid text history lead Hs Ha Hat Hdot Hc Hm.
    rewrite (chat_endpoint_email_valid str_lower cfg env sessions request_data session Hs Ha)
      by (fold text; now rewrite Hat, Hdot).
    fold sid text history lead.
    rewrite (send_lead_email_assembly_raises cfg env lead history e Hc Hm).
    reflexivity.
Qed.

(** The sender and the accepted email step on a text that holds a lone
    surrogate, with the mail relay configured. *)
Lemma send_lead_email_raises_from_assembly_witness :
  let text := LONE_SURROGATE +:+ "@x.y" in
  let lead := <["email" := text]> (user_data session_awaiting_email) in
  let history := message_history session_awaiting_email ++ [user_message env_all_up text] in
  let e := Exception "'utf-8' codec can't encode character '\ud800' in position 88: surrogates not allowed" in
  send_lead_email settings_with_smtp env_all_up lead history =
    ([EvSendLeadEmail lead history], Raise e)
  ∧ (chat_endpoint ascii_lower settings_with_smtp env_all_up
       {[ "s1" := session_awaiting_email ]} (request text (Some "s1"))).2 =
    ([EvSendLeadEmail lead history], Raise e).
Proof.
  intros text lead history e.
  destruct (send_lead_email_raises_from_assembly ascii_lower settings_with_smtp env_all_up)
    as (_ & _ & Hsend & Hchat).
  split.
  - apply Hsend; reflexivity.
  - apply (Hchat {[ "s1" := session_awaiting_email ]} (request text (Some "s1"))
             session_awaiting_email e); reflexivity.
Defined.

(* ===================================================================== *)
(** ** Invariants of the session store                                    *)
(* ===================================================================== *)

Lemma get_session_known now sessions sid :
  store_ok sessions →
  known_action (awaiting_action (get_session now sessions sid).2).
Proof.
  intros Hok. unfold get_session. destruct (sessions !! sid) as [s|] eqn:E; simpl.
  - exact (Hok sid s E).
  - left. reflexivity.
Qed.

Lemma chat_endpoint_preserves_store_ok str_lower cfg env sessions request_data :
  store_ok sessions →
  store_ok (chat_endpoint str_lower cfg env sessions request_data).1.
Proof.
  intros Hok sid' s'. rewrite chat_endpoint_store.
  set (sid := resolve_session_id env request_data).
  set (s0 := (get_session (now_created env) sessions sid).2).
  set (s1 := append_message (user_message env (message request_data)) s0).
  destruct (main_logic_flow_frame str_lower cfg env s1 (message request_data))
    as [_ [_ Hk]].
  assert (Hs1 : known_action (awaiting_action s1))
    by (apply (get_session_known (now_created env) sessions sid Hok)).
  specialize (Hk Hs1).
  rewrite lookup_insert. case_decide as Hd.
  - intros [= <-].
    destruct (outcome (main_logic_flow str_lower cfg env s1 (message request_data)).2);
      exact Hk.
  - apply Hok.
Qed.

Lemma chat_calls_cons str_lower cfg call calls sessions :
  chat_calls str_lower cfg (call :: calls) sessions =
  chat_calls str_lower cfg calls (chat_endpoint str_lower cfg call.1 sessions call.2).1.
Proof. reflexivity. Qed.

Lemma chat_calls_preserve_store_ok str_lower cfg calls sessions :
  store_ok sessions → store_ok (chat_calls str_lower cfg calls sessions).
Proof.
  revert sessions. induction calls as [|call calls IH]; intros sessions Hok.
  - exact Hok.
  - rewrite chat_calls_cons. apply IH. now apply chat_endpoint_preserves_store_ok.
Qed.

(** C6.  A newly created session awaits nothing; a chat call, whichever
    branch it takes and whether it returns or raises, leaves every session
    of the store with [awaiting_action] among [None], ["get_name"] and
    ["get_email"] when that held before; so it holds of every session after
    any sequence of chat calls from the empty store. *)
Theorem awaiting_action_invariant str_lower cfg :
  (∀ now, awaiting_action (new_session now) = None)
  ∧ (∀ env sessions request_data,
       store_ok sessions →
       store_ok (chat_endpoint str_lower cfg env sessions request_data).1)
  ∧ (∀ calls sid session,
       chat_calls str_lower cfg calls initial_sessions !! sid = Some session →
       awaiting_action session = None ∨
       awaiting_action session = Some "get_name" ∨
       awaiting_action session = Some "get_email").
Proof.
  split; [reflexivity | split].
  - intros. now apply chat_endpoint_preserves_store_ok.
  - intros calls sid session H.
    refine (chat_calls_preserve_store_ok str_lower cfg calls initial_sessions _ sid session H).
    intros sid' s' Hl. unfold initial_sessions in Hl. now rewrite lookup_empty in Hl.
Qed.

Lemma awaiting_action_invariant_witness :
  store_ok {[ "s1" := session_awaiting_name ]}
  ∧ store_ok (chat_endpoint ascii_lower default_settings env_all_up
                {[ "s1" := session_awaiting_name ]} (request "Ada" (Some "s1"))).1.
Proof.
  assert (H0 : store_ok {[ "s1" := session_awaiting_name ]}).
  { intros sid s Hl. apply lookup_singleton_Some in Hl as [_ <-].
    right. left. reflexivity. }
  split; [exact H0|].
  destruct (awaiting_action_invariant ascii_lower default_settings) as [_ [H _]].
  apply H. exact H0.
Defined.

(* ===================================================================== *)
(** ** The message history                                                *)
(* ===================================================================== *)

(** What one call appends to the history of its session. *)
Lemma chat_endpoint_history str_lower cfg env sessions request_data :
  let sid := resolve_session_id env request_data in
  let s0 := (get_session (now_created env) sessions sid).2 in
  let call := chat_endpoint str_lower cfg env sessions request_data in
  ∃ session',
    call.1 = <[sid := session']> sessions ∧
    message_history session' =
      message_history s0 ++ appended env request_data (outcome call.2).
Proof.
  intros sid s0 call. unfold call.
  rewrite chat_endpoint_store, chat_endpoint_result. fold sid. fold s0.
  set (s1 := append_message (user_message env (message request_data)) s0).
  destruct (main_logic_flow_frame str_lower cfg env s1 (message request_data))
    as [_ [Hh _]].
  destruct (outcome (main_logic_flow str_lower cfg env s1 (message request_data)).2)
    as [reply|e]; eexists; (split; [reflexivity|]); cbn.
  - rewrite Hh. unfold s1. cbn. rewrite <- app_assoc. reflexivity.
  - rewrite Hh. reflexivity.
Qed.

Lemma history_length_get_session now sessions sid :
  length (message_history (get_session now sessions sid).2) = history_length sessions sid.
Proof.
  unfold get_session, history_length. destruct (sessions !! sid); reflexivity.
Qed.

(** The history of [sid] grows by what the call appends when the call is
    addressed to [sid], and not at all otherwise. *)
Lemma chat_endpoint_history_length str_lower cfg env sessions request_data sid :
  let call := chat_endpoint str_lower cfg env sessions request_data in
  history_length call.1 sid =
  history_length sessions sid +
  addressed sid (env, request_data) * length (appended env request_data (outcome call.2)).
Proof.
  intros call.
  destruct (chat_endpoint_history str_lower cfg env sessions request_data)
    as [s' [Hst Hh]].
  fold call in Hst, Hh. rewrite Hst.
  unfold addressed, history_length at 1. cbn [fst snd].
  rewrite lookup_insert. case_bool_decide as Hd; case_decide as Hd'; try congruence.
  - rewrite Hh, length_app, history_length_get_session. subst sid. lia.
  - fold (history_length sessions sid). lia.
Qed.

Lemma calls_on_cons sid call calls :
  calls_on sid (call :: calls) = addressed sid call + calls_on sid calls.
Proof.
  unfold calls_on, addressed. cbn [List.filter].
  destruct (bool_decide _); reflexivity.
Qed.

Lemma chat_calls_history_length str_lower cfg calls sessions sid :
  all_returned_on str_lower sid cfg calls sessions →
  history_length (chat_calls str_lower cfg calls sessions) sid =
  history_length sessions sid + 2 * calls_on sid calls.
Proof.
  revert sessions. induction calls as [|[env req] calls IH]; intros sessions Hall.
  - cbn. unfold calls_on. cbn. lia.
  - destruct Hall as [Hr Hrest]. cbn [fst snd] in Hr, Hrest.
    rewrite chat_calls_cons, calls_on_cons. cbn [fst snd].
    rewrite (IH _ Hrest), chat_endpoint_history_length.
    unfold addressed in *. cbn [fst snd] in *.
    case_bool_decide as Hd; [|lia].
    destruct (Hr Hd) as [r ->]. cbn [appended length]. lia.
Qed.

(** C7 (as amended).  A chat call that returns a response appends exactly
    two entries to the history of its session, the inbound user message and
    then the outbound assistant message, whichever branch it took; a call
    that raises (the retrieval fallback can) appends the user message only.
    So after a sequence of chat calls in which every call addressed to a
    session returned, the history of that session, if it did not exist
    before, has length twice the number of calls addressed to it. *)
Theorem history_grows_by_two str_lower cfg :
  (∀ env sessions request_data r,
     let sid := resolve_session_id env request_data in
     let call := chat_endpoint str_lower cfg env sessions request_data in
     outcome call.2 = Ok r →
     ∃ session',
       call.1 = <[sid := session']> sessions ∧
       message_history session' =
         message_history (get_session (now_created env) sessions sid).2 ++
         [user_message env (message request_data); assistant_message env (response r)])
  ∧ (∀ env sessions request_data e,
       let sid := resolve_session_id env request_data in
       let call := chat_endpoint str_lower cfg env sessions request_data in
       outcome call.2 = Raise e →
       ∃ session',
         call.1 = <[sid := session']> sessions ∧
         message_history session' =
           message_history (get_session (now_created env) sessions sid).2 ++
           [user_message env (message request_data)])
  ∧ (∀ calls sessions sid,
       all_returned_on str_lower sid cfg calls sessions →
       history_length (chat_calls str_lower cfg calls sessions) sid =
       history_length sessions sid + 2 * calls_on sid calls)
  ∧ (∀ calls sessions sid,
       sessions !! sid = None →
       all_returned_on str_lower sid cfg calls sessions →
       history_length (chat_calls str_lower cfg calls sessions) sid =
       2 * calls_on sid calls).
Proof.
  split; [|split; [|split]].
  - intros env sessions request_data r sid call Hr.
    destruct (chat_endpoint_history str_lower cfg env sessions request_data)
      as [s' [Hst Hh]].
    exists s'. split; [exact Hst|]. fold call in Hh. rewrite Hr in Hh. exact Hh.
  - intros env sessions request_data e sid call Hr.
    destruct (chat_endpoint_history str_lower cfg env sessions request_data)
      as [s' [Hst Hh]].
    exists s'. split; [exact Hst|]. fold call in Hh. rewrite Hr in Hh. exact Hh.
  - intros. now apply chat_calls_history_length.
  - intros calls sessions sid Hnone Hall.
    rewrite (chat_calls_history_length _ _ _ _ _ Hall).
    unfold history_length. now rewrite Hnone.
Qed.

Lemma history_grows_by_two_witness :
  all_returned_on ascii_lower "s1" default_settings
    [(env_all_up, request "how much does it cost?" (Some "s1"));
     (env_llm_down, request "hello" (Some "s2"));
     (env_all_up, request "Ada" (Some "s1"))]
    initial_sessions
  ∧ history_length
      (chat_calls ascii_lower default_settings
         [(env_all_up, request "how much does it cost?" (Some "s1"));
          (env_llm_down, request "hello" (Some "s2"));
          (env_all_up, request "Ada" (Some "s1"))]
         initial_sessions) "s1" = 4.
Proof.
  assert (Hall : all_returned_on ascii_lower "s1" default_settings
    [(env_all_up, request "how much does it cost?" (Some "s1"));
     (env_llm_down, request "hello" (Some "s2"));
     (env_all_up, request "Ada" (Some "s1"))]
    initial_sessions).
  { cbn [all_returned_on].
    split; [intros _; eexists; reflexivity|].
    split; [intros Hd; discriminate Hd|].
    split; [intros _; eexists; reflexivity | exact I]. }
  split; [exact Hall|].
  destruct (history_grows_by_two ascii_lower default_settings) as [_ [_ [_ H]]].
  rewrite (H _ initial_sessions "s1" eq_refl Hall). reflexivity.
Defined.

(** The property as the specification states it fails when the language model
    cannot be reached: on
    a fresh session the call appends the user message, the retrieval
    fallback raises, and the assistant message is never appended, so the
    history has length one after one call; a second call, which returns,
    brings it to three. *)
Lemma history_after_failed_call :
  outcome (chat_endpoint ascii_lower default_settings env_llm_down initial_sessions
             (request "how does your automation work?" (Some "s1"))).2 =
    Raise (Exception "connection refused")
  ∧ history_length
      (chat_calls ascii_lower default_settings
         [(env_llm_down, request "how does your automation work?" (Some "s1"))]
         initial_sessions) "s1" = 1
  ∧ history_length
      (chat_calls ascii_lower default_settings
         [(env_llm_down, request "how does your automation work?" (Some "s1"));
          (env_all_up, request "how does your automation work?" (Some "s1"))]
         initial_sessions) "s1" = 3.
Proof. repeat split. Qed.

(* ===================================================================== *)
(** ** The session store                                                  *)
(* ===================================================================== *)

(** C9.  [get_session] on an identifier absent from the store adds, and
    returns, a session that awaits nothing and has an empty history and
    empty [user_data], and touches no other entry; on an identifier present
    in the store it returns the stored session and leaves the store as it
    was. *)
Theorem get_session_get_or_create now sessions sid :
  (sessions !! sid = None →
     let created := {| created_at := now; message_history := [];
                       awaiting_action := None; user_data := ∅ |} in
     get_session now sessions sid = (<[sid := created]> sessions, created)
     ∧ (get_session now sessions sid).1 !! sid = Some created
     ∧ ∀ other, other ≠ sid →
         (get_session now sessions sid).1 !! other = sessions !! other)
  ∧ (∀ session,
       sessions !! sid = Some session →
       get_session now sessions sid = (sessions, session)).
Proof.
  split.
  - intros Hnone created. rewrite (get_session_absent _ _ _ Hnone).
    split; [reflexivity | split].
    + apply lookup_insert_eq.
    + intros other Hne. now apply lookup_insert_ne.
  - intros session Hs. now apply get_session_existing.
Qed.

Lemma get_session_get_or_create_witness :
  get_session "2025-01-01T10:00:00" {[ "s1" := session_awaiting_name ]} "s2" =
    (<[ "s2" := new_session "2025-01-01T10:00:00" ]> {[ "s1" := session_awaiting_name ]},
     new_session "2025-01-01T10:00:00")
  ∧ get_session "2025-01-01T10:00:00" {[ "s1" := session_awaiting_name ]} "s1" =
    ({[ "s1" := session_awaiting_name ]}, session_awaiting_name).
Proof.
  destruct (get_session_get_or_create "2025-01-01T10:00:00"
              {[ "s1" := session_awaiting_name ]} "s2") as [Hnew _].
  destruct (get_session_get_or_create "2025-01-01T10:00:00"
              {[ "s1" := session_awaiting_name ]} "s1") as [_ Hold].
  split.
  - destruct (Hnew eq_refl) as [H _]. exact H.
  - exact (Hold session_awaiting_name eq_refl).
Defined.

(* ===================================================================== *)
(** ** Session identifiers                                                *)
(* ===================================================================== *)

Lemma string_length_app (a b : string) :
  String.length (a +:+ b) = String.length a + String.length b.
Proof. induction a as [|c a IH]; simpl; [reflexivity | now rewrite IH]. Qed.

Lemma hex_digits_length w n : String.length (hex_digits w n) = w.
Proof.
  revert n. induction w as [|w IH]; intros n; [reflexivity|].
  cbn [hex_digits]. rewrite string_length_app, IH. simpl. lia.
Qed.

Lemma is_hex_text_app (a b : string) :
  is_hex_text (a +:+ b) = is_hex_text a && is_hex_text b.
Proof.
  induction a as [|c a IH]; simpl; [reflexivity | now rewrite IH, andb_assoc].
Qed.

Lemma hex_digit_is_hex d : (d < 16)%N → is_hex_char (hex_digit d) = true.
Proof.
  intros Hd. rewrite <- (N2Nat.id d).
  assert (Hk : (N.to_nat d < 16)%nat) by lia.
  revert Hk. generalize (N.to_nat d). clear d Hd. intros k Hk.
  do 16 (destruct k as [|k]; [reflexivity|]). lia.
Qed.

Lemma hex_digits_is_hex w n : is_hex_text (hex_digits w n) = true.
Proof.
  revert n. induction w as [|w IH]; intros n; [reflexivity|].
  cbn [hex_digits]. rewrite is_hex_text_app, IH. cbn [is_hex_text andb].
  rewrite hex_digit_is_hex; [reflexivity|]. apply N.mod_lt. discriminate.
Qed.

Lemma hex_digit_inj d d' :
  (d < 16)%N → (d' < 16)%N → hex_digit d = hex_digit d' → d = d'.
Proof.
  intros Hd Hd' Heq. unfold hex_digit in Heq.
  apply (f_equal Ascii.N_of_ascii) in Heq.
  destruct (N.ltb_spec d 10), (N.ltb_spec d' 10);
    rewrite !Ascii.N_ascii_embedding in Heq by lia; lia.
Qed.

Lemma string_app_last_inj (a b : string) (c d : ascii) :
  a +:+ String c EmptyString = b +:+ String d EmptyString → a = b ∧ c = d.
Proof.
  revert b. induction a as [|x a IH]; intros [|y b]; simpl; intros Heq.
  - now injection Heq.
  - injection Heq as _ Heq. destruct b; discriminate.
  - injection Heq as _ Heq. destruct a; discriminate.
  - injection Heq as -> Heq. destruct (IH _ Heq) as [-> ->]. split; reflexivity.
Qed.

(** Distinct numbers below [16^w] have distinct digits. *)
Lemma hex_digits_inj w n m :
  (n < 16 ^ N.of_nat w)%N → (m < 16 ^ N.of_nat w)%N →
  hex_digits w n = hex_digits w m → n = m.
Proof.
  revert n m. induction w as [|w IH]; intros n m Hn Hm Heq.
  - cbn in Hn, Hm. lia.
  - cbn [hex_digits] in Heq. apply string_app_last_inj in Heq as [Hhi Hlo].
    rewrite Nat2N.inj_succ, N.pow_succ_r' in Hn, Hm.
    apply hex_digit_inj in Hlo; [| apply N.mod_lt; discriminate..].
    apply IH in Hhi; [| apply N.Div0.div_lt_upper_bound; assumption..].
    rewrite (N.Div0.div_mod n 16), (N.Div0.div_mod m 16). now rewrite Hhi, Hlo.
Qed.

(** The layout of the text of a UUID, from its 32 digits. *)
Lemma uuid_text_layout (hex : string) :
  String.length hex = 32 →
  let u := String.substring 0 8 hex +:+ "-" +:+ String.substring 8 4 hex +:+ "-" +:+
           String.substring 12 4 hex +:+ "-" +:+ String.substring 16 4 hex +:+ "-" +:+
           String.substring 20 12 hex in
  String.length u = 36
  ∧ String.get 8 u = Some "-"%char ∧ String.get 13 u = Some "-"%char
  ∧ String.get 18 u = Some "-"%char ∧ String.get 23 u = Some "-"%char
  ∧ uuid_hex u = hex.
Proof.
  intros Hlen u. subst u.
  do 32 (destruct hex as [|? hex]; [discriminate Hlen|]).
  destruct hex; [|discriminate Hlen].
  repeat split; reflexivity.
Qed.

Lemma str_uuid_layout n :
  String.length (str_uuid n) = 36
  ∧ String.get 8 (str_uuid n) = Some "-"%char
  ∧ String.get 13 (str_uuid n) = Some "-"%char
  ∧ String.get 18 (str_uuid n) = Some "-"%char
  ∧ String.get 23 (str_uuid n) = Some "-"%char
  ∧ uuid_hex (str_uuid n) = hex_digits 32 n.
Proof. apply uuid_text_layout, hex_digits_length. Qed.

(** Distinct 128-bit numbers have distinct texts. *)
Lemma str_uuid_inj n m :
  (n < 2 ^ 128)%N → (m < 2 ^ 128)%N → str_uuid n = str_uuid m → n = m.
Proof.
  intros Hn Hm Heq. apply (hex_digits_inj 32); [exact Hn | exact Hm |].
  destruct (str_uuid_layout n) as (_ & _ & _ & _ & _ & <-).
  destruct (str_uuid_layout m) as (_ & _ & _ & _ & _ & <-).
  now rewrite Heq.
Qed.

Lemma str_uuid_nonempty n : str_uuid n ≠ "".
Proof.
  unfold str_uuid. destruct (String.substring 0 8 _); discriminate.
Qed.

Lemma resolve_session_id_nonempty env request_data :
  resolve_session_id env request_data ≠ "".
Proof.
  unfold resolve_session_id.
  destruct (session_id request_data) as [[|c rest]|];
    [apply str_uuid_nonempty | discriminate | apply str_uuid_nonempty].
Qed.

Lemma chat_endpoint_no_empty_key str_lower cfg env sessions request_data :
  sessions !! "" = None →
  (chat_endpoint str_lower cfg env sessions request_data).1 !! "" = None.
Proof.
  intros H. rewrite chat_endpoint_store, lookup_insert_ne; [exact H|].
  apply resolve_session_id_nonempty.
Qed.

Lemma chat_calls_no_empty_key str_lower cfg calls sessions :
  sessions !! "" = None →
  chat_calls str_lower cfg calls sessions !! "" = None.
Proof.
  revert sessions. induction calls as [|call calls IH]; intros sessions H.
  - exact H.
  - rewrite chat_calls_cons. apply IH. now apply chat_endpoint_no_empty_key.
Qed.

(** C10.  A request whose [session_id] is the empty string is handled
    exactly as a request without [session_id]: the identifier of the call is
    the text of the UUID that [uuid.uuid4()] returns, which is the
    [session_id] of any response.  That text has 36 characters, hyphens at
    positions 8, 13, 18 and 23 and elsewhere the 32 lowercase hexadecimal
    digits of the UUID, so that distinct UUIDs give distinct identifiers.
    When the store has no entry for the identifier, a new session is created
    under it and the call works on that session; the code does not test for
    that, and when the store has an entry for it the call continues the
    session stored there.  The empty string is not a key of the store after
    a call when it was not one before, so it is never a key in a run from
    the empty store. *)
Theorem empty_session_id_is_no_session_id str_lower cfg env sessions text :
  let uuid := str_uuid (uuid4_int env) in
  let call := chat_endpoint str_lower cfg env sessions (request text (Some "")) in
  call = chat_endpoint str_lower cfg env sessions (request text None)
  ∧ resolve_session_id env (request text (Some "")) = uuid
  ∧ (String.length uuid = 36
     ∧ String.get 8 uuid = Some "-"%char ∧ String.get 13 uuid = Some "-"%char
     ∧ String.get 18 uuid = Some "-"%char ∧ String.get 23 uuid = Some "-"%char
     ∧ uuid_hex uuid = hex_digits 32 (uuid4_int env)
     ∧ is_hex_text (uuid_hex uuid) = true)
  ∧ (∀ env', (uuid4_int env < 2 ^ 128)%N → (uuid4_int env' < 2 ^ 128)%N →
       str_uuid (uuid4_int env') = uuid → uuid4_int env' = uuid4_int env)
  ∧ (∀ r, outcome call.2 = Ok r → resp_session_id r = uuid)
  ∧ (sessions !! uuid = None →
       get_session (now_created env) sessions uuid =
         (<[uuid := new_session (now_created env)]> sessions,
          new_session (now_created env))
       ∧ ∃ session',
           call.1 = <[uuid := session']> sessions ∧
           created_at session' = now_created env ∧
           message_history session' =
             appended env (request text (Some "")) (outcome call.2))
  ∧ (∀ session, sessions !! uuid = Some session →
       get_session (now_created env) sessions uuid = (sessions, session)
       ∧ call.1 =
           <[uuid := session_after str_lower cfg env (request text (Some "")) session]>
             sessions
       ∧ ∃ session',
           call.1 !! uuid = Some session' ∧
           created_at session' = created_at session ∧
           message_history session' =
             message_history session ++
             appended env (request text (Some "")) (outcome call.2))
  ∧ (sessions !! "" = None → call.1 !! "" = None)
  ∧ (∀ calls, chat_calls str_lower cfg calls initial_sessions !! "" = None).
Proof.
  intros uuid call.
  split; [reflexivity|]. split; [reflexivity|].
  split.
  { destruct (str_uuid_layout (uuid4_int env)) as (H0 & H1 & H2 & H3 & H4 & H5).
    repeat (split; [assumption|]). fold uuid in H5. rewrite H5.
    apply hex_digits_is_hex. }
  split; [intros env' Hn Hm Heq; now apply str_uuid_inj|].
  split; [|split; [|split; [|split]]].
  - intros r. unfold call. rewrite chat_endpoint_result.
    unfold outcome at 1. cbn [snd].
    destruct (outcome _); [intros [= <-]; reflexivity | discriminate].
  - intros Hnone. split; [now apply get_session_absent|].
    destruct (chat_endpoint_history str_lower cfg env sessions (request text (Some "")))
      as [s' [Hst Hh]].
    exists s'. split; [exact Hst|]. split.
    + assert (Hin : call.1 !! uuid = Some s')
        by (unfold call; rewrite Hst; apply lookup_insert_eq).
      unfold call in Hin. rewrite chat_endpoint_store in Hin.
      rewrite lookup_insert_eq in Hin. injection Hin as <-.
      change (resolve_session_id env (request text (Some ""))) with uuid.
      rewrite (get_session_absent _ _ _ Hnone). cbn [snd].
      match goal with |- context [main_logic_flow ?l ?c ?e ?s ?m] =>
        destruct (main_logic_flow_frame l c e s m) as [Hc _];
        destruct (outcome (main_logic_flow l c e s m).2) end;
        cbn; cbn in Hc; rewrite Hc; reflexivity.
    + change (resolve_session_id env (request text (Some ""))) with uuid in Hh.
      rewrite (get_session_absent _ _ _ Hnone) in Hh. exact Hh.
  - intros session Hsome.
    split; [now apply get_session_existing|].
    destruct (chat_endpoint_history str_lower cfg env sessions (request text (Some "")))
      as [s' [Hst Hh]].
    change (resolve_session_id env (request text (Some ""))) with uuid in Hst, Hh.
    rewrite (get_session_existing _ _ _ _ Hsome) in Hh. cbn [snd] in Hh.
    fold call in Hst, Hh.
    assert (Hstore : call.1 =
              <[uuid := session_after str_lower cfg env (request text (Some "")) session]>
                sessions).
    { unfold call. rewrite chat_endpoint_store.
      change (resolve_session_id env (request text (Some ""))) with uuid.
      now rewrite (get_session_existing _ _ _ _ Hsome). }
    split; [exact Hstore|].
    exists s'. split; [rewrite Hst; apply lookup_insert_eq | split; [|exact Hh]].
    assert (Hs' : Some s' =
                  Some (session_after str_lower cfg env (request text (Some "")) session)).
    { rewrite <- (lookup_insert_eq sessions uuid s'), <- Hst, Hstore.
      apply lookup_insert_eq. }
    injection Hs' as ->. unfold session_after.
    match goal with |- context [main_logic_flow ?l ?c ?e ?s ?m] =>
      destruct (main_logic_flow_frame l c e s m) as [Hc _];
      destruct (outcome (main_logic_flow l c e s m).2) end;
      cbn; cbn in Hc; exact Hc.
  - apply chat_endpoint_no_empty_key.
  - intros calls. apply chat_calls_no_empty_key. apply lookup_empty.
Qed.

Lemma empty_session_id_is_no_session_id_witness :
  (initial_sessions : gmap string Session) !! "" = None
  ∧ chat_endpoint ascii_lower default_settings env_no_store initial_sessions
      (request "hello" (Some "")) =
    ({[ "3b241101-e2bb-4255-a0c1-d2e3f4a5b6c7" :=
          {| created_at := now_created env_no_store;
             message_history :=
               [user_message env_no_store "hello";
                assistant_message env_no_store KNOWLEDGE_BASE_NOT_FOUND];
             awaiting_action := None;
             user_data := ∅ |} ]},
     ([EvLoadEmbeddings "sentence-transformers/all-MiniLM-L6-v2";
       EvPathExists "faiss_db"],
      Ok {| response := KNOWLEDGE_BASE_NOT_FOUND;
            resp_session_id := "3b241101-e2bb-4255-a0c1-d2e3f4a5b6c7";
            confidence := 0 # 1;
            requires_action := None |})).
Proof.
  split; [reflexivity|].
  destruct (empty_session_id_is_no_session_id ascii_lower default_settings
              env_no_store initial_sessions "hello") as [H _].
  rewrite H. reflexivity.
Defined.

(** The counterexample to C10 as the specification words it: the store
    already holds a session under the identifier that the generator
    returns (a client may have sent that very text as its [session_id]
    before).  The call with the empty [session_id] creates no session: it
    continues the stored one, here by completing its email step, and the
    store still has one session, created when that one was. *)
Lemma generated_id_continues_stored_session :
  str_uuid (uuid4_int env_all_up) = "3b241101-e2bb-4255-a0c1-d2e3f4a5b6c7"
  ∧ fst (chat_endpoint ascii_lower default_settings env_all_up
           {[ "3b241101-e2bb-4255-a0c1-d2e3f4a5b6c7" := session_awaiting_email ]}
           (request "ada@example.com" (Some "")))
      !! "3b241101-e2bb-4255-a0c1-d2e3f4a5b6c7" =
    Some {| created_at := "2025-01-01T09:59:00.000000";
            message_history :=
              message_history session_awaiting_email ++
              [user_message env_all_up "ada@example.com";
               assistant_message env_all_up (email_confirmation "ada@example.com")];
            awaiting_action := None;
            user_data := {[ "name" := "Ada"; "email" := "ada@example.com" ]} |}
  ∧ size (fst (chat_endpoint ascii_lower default_settings env_all_up
                 {[ "3b241101-e2bb-4255-a0c1-d2e3f4a5b6c7" := session_awaiting_email ]}
                 (request "ada@example.com" (Some "")))) = 1
  ∧ outcome
      (snd (chat_endpoint ascii_lower default_settings env_all_up
              {[ "3b241101-e2bb-4255-a0c1-d2e3f4a5b6c7" := session_awaiting_email ]}
              (request "ada@example.com" (Some "")))) =
    Ok {| response := email_confirmation "ada@example.com";
          resp_session_id := "3b241101-e2bb-4255-a0c1-d2e3f4a5b6c7";
          confidence := 1 # 1;
          requires_action := None |}.
Proof. repeat split; vm_compute; reflexivity. Qed.

(* ===================================================================== *)
(** ** Further properties: what a call does to the store                  *)
(* ===================================================================== *)

Lemma chat_endpoint_store_after str_lower cfg env sessions request_data :
  let sid := resolve_session_id env request_data in
  (chat_endpoint str_lower cfg env sessions request_data).1 =
  <[sid := session_after str_lower cfg env request_data
             (get_session (now_created env) sessions sid).2]> sessions.
Proof. intros sid. rewrite chat_endpoint_store. reflexivity. Qed.

Lemma session_after_created str_lower cfg env request_data session :
  created_at (session_after str_lower cfg env request_data session) = created_at session.
Proof.
  unfold session_after.
  match goal with |- context [main_logic_flow ?l ?c ?e ?s ?m] =>
    destruct (main_logic_flow_frame l c e s m) as [Hc _];
    destruct (outcome (main_logic_flow l c e s m).2) end;
    cbn; cbn in Hc; exact Hc.
Qed.

Lemma session_after_history str_lower cfg env request_data session :
  ∃ suffix,
    message_history (session_after str_lower cfg env request_data session) =
      message_history session ++ user_message env (message request_data) :: suffix
    ∧ ∀ m, In m suffix → role m = "assistant".
Proof.
  unfold session_after.
  match goal with |- context [main_logic_flow ?l ?c ?e ?s ?m] =>
    destruct (main_logic_flow_frame l c e s m) as [_ [Hh _]];
    destruct (outcome (main_logic_flow l c e s m).2) as [reply|e'] end;
    cbn; cbn in Hh; rewrite Hh.
  - exists [assistant_message env (response_text reply)]. split.
    + rewrite <- app_assoc. reflexivity.
    + intros m [<-|[]]. reflexivity.
  - exists []. split; [reflexivity | intros m []].
Qed.

Lemma chat_calls_app str_lower cfg calls1 calls2 sessions :
  chat_calls str_lower cfg (calls1 ++ calls2) sessions =
  chat_calls str_lower cfg calls2 (chat_calls str_lower cfg calls1 sessions).
Proof. unfold chat_calls. apply fold_left_app. Qed.

(** X1.  A chat call writes one entry of the store, the one of its own
    session identifier: every other entry is what it was, the identifier of
    the call has an entry afterwards, and no entry is ever removed.  So a
    session to which no call of a sequence is addressed is untouched by the
    whole sequence. *)
Theorem chat_endpoint_touches_one_session str_lower cfg :
  (∀ env sessions request_data,
     let sid := resolve_session_id env request_data in
     let after := (chat_endpoint str_lower cfg env sessions request_data).1 in
     (∀ other, other ≠ sid → after !! other = sessions !! other)
     ∧ is_Some (after !! sid)
     ∧ dom after = {[ sid ]} ∪ dom sessions)
  ∧ (∀ calls sessions sid,
       calls_on sid calls = 0 →
       chat_calls str_lower cfg calls sessions !! sid = sessions !! sid)
  ∧ (∀ calls sessions, dom sessions ⊆ dom (chat_calls str_lower cfg calls sessions)).
Proof.
  assert (Hone : ∀ env sessions request_data,
     let sid := resolve_session_id env request_data in
     let after := (chat_endpoint str_lower cfg env sessions request_data).1 in
     (∀ other, other ≠ sid → after !! other = sessions !! other)
     ∧ is_Some (after !! sid)
     ∧ dom after = {[ sid ]} ∪ dom sessions).
  { intros env sessions request_data sid after. unfold after.
    rewrite chat_endpoint_store_after. fold sid. split; [|split].
    - intros other Hne. now apply lookup_insert_ne.
    - rewrite lookup_insert_eq. eauto.
    - apply dom_insert_L. }
  split; [exact Hone | split].
  - intros calls. induction calls as [|[env req] calls IH]; intros sessions sid Hz.
    + reflexivity.
    + rewrite calls_on_cons in Hz. unfold addressed in Hz. cbn [fst snd] in Hz.
      case_bool_decide as Hd; [lia|].
      rewrite chat_calls_cons, IH by lia. cbn [fst snd].
      destruct (Hone env sessions req) as [Hother _]. apply Hother. congruence.
  - intros calls. induction calls as [|[env req] calls IH]; intros sessions.
    + reflexivity.
    + rewrite chat_calls_cons. cbn [fst snd]. etrans; [|apply IH].
      destruct (Hone env sessions req) as [_ [_ ->]]. apply union_subseteq_r.
Qed.

Lemma chat_endpoint_touches_one_session_witness :
  calls_on "s2" [(env_all_up, request "Ada" (Some "s1"))] = 0
  ∧ chat_calls ascii_lower default_settings
      [(env_all_up, request "Ada" (Some "s1"))]
      {[ "s1" := session_awaiting_name; "s2" := session_awaiting_email ]} !! "s2" =
    Some session_awaiting_email.
Proof.
  split; [reflexivity|].
  destruct (chat_endpoint_touches_one_session ascii_lower default_settings) as [_ [H _]].
  rewrite H; reflexivity.
Defined.

(** X2.  Histories are append-only and creation times never change: for
    every session of the store before a sequence of chat calls, the store
    after has a session under the same identifier with the same
    [created_at], whose history starts with the whole history of before. *)
Theorem history_is_append_only str_lower cfg calls sessions sid session :
  sessions !! sid = Some session →
  ∃ session',
    chat_calls str_lower cfg calls sessions !! sid = Some session'
    ∧ created_at session' = created_at session
    ∧ message_history session `prefix_of` message_history session'.
Proof.
  revert sessions session. induction calls as [|[env req] calls IH];
    intros sessions session Hs.
  - exists session. split; [exact Hs | split; reflexivity].
  - rewrite chat_calls_cons. cbn [fst snd].
    assert (Hstep : ∃ s1,
      (chat_endpoint str_lower cfg env sessions req).1 !! sid = Some s1
      ∧ created_at s1 = created_at session
      ∧ message_history session `prefix_of` message_history s1).
    { rewrite chat_endpoint_store_after, lookup_insert. case_decide as Hd.
      - eexists. split; [reflexivity|].
        rewrite Hd, (get_session_existing _ _ _ _ Hs). cbn [snd]. split.
        + apply session_after_created.
        + destruct (session_after_history str_lower cfg env req session)
            as [suffix [-> _]]. apply prefix_app_r. reflexivity.
      - exists session. split; [exact Hs | split; reflexivity]. }
    destruct Hstep as [s1 [Hs1 [Hc1 Hp1]]].
    destruct (IH _ _ Hs1) as [s' [Hs' [Hc' Hp']]].
    exists s'. split; [exact Hs' | split; [congruence | etrans; eassumption]].
Qed.

Lemma history_is_append_only_witness :
  ∃ session',
    chat_calls ascii_lower default_settings
      [(env_all_up, request "Ada" (Some "s1"));
       (env_llm_down, request "ada@example.com" (Some "s1"))]
      {[ "s1" := session_awaiting_name ]} !! "s1" = Some session'
    ∧ created_at session' = created_at session_awaiting_name
    ∧ message_history session_awaiting_name `prefix_of` message_history session'.
Proof.
  apply (history_is_append_only ascii_lower default_settings
           [(env_all_up, request "Ada" (Some "s1"));
            (env_llm_down, request "ada@example.com" (Some "s1"))]
           {[ "s1" := session_awaiting_name ]} "s1" session_awaiting_name).
  reflexivity.
Defined.

(* ===================================================================== *)
(** ** Further properties: which branch does what                         *)
(* ===================================================================== *)

(** Case analysis along the tests of lines 77, 83, 84 and 96. *)
Ltac flow_cases :=
  unfold main_logic_flow;
  destruct (decide (_ = Some "get_name")) as [Hname|Hname];
  [| destruct (decide (_ = Some "get_email")) as [Hemail|Hemail];
     [ destruct (str_contains "@" _ && str_contains "." _) eqn:Hvalid
     | destruct (detect_lead_intent _ _ _) eqn:Hintent ] ].

Lemma send_lead_email_no_answer_events cfg env lead_data history :
  answer_function_events (events (send_lead_email cfg env lead_data history)) = [].
Proof.
  unfold send_lead_email, assemble_message, lead_delivery, smtp_delivery.
  destruct (smtp_configured cfg); [|reflexivity].
  destruct (mime_text env (lead_body lead_data history)) as [[]|?]; [|reflexivity].
  smtp_cases env; reflexivity.
Qed.

(** The sender raises only from the assembly of the message. *)
Lemma send_lead_email_raises_inv cfg env lead_data history e :
  outcome (send_lead_email cfg env lead_data history) = Raise e →
  smtp_configured cfg = true
  ∧ mime_text env (lead_body lead_data history) = Raise e
  ∧ events (send_lead_email cfg env lead_data history) = [EvSendLeadEmail lead_data history].
Proof.
  rewrite send_lead_email_outcome.
  destruct (smtp_configured cfg) eqn:Hc; [|discriminate].
  intros Hm. split; [reflexivity | split; [exact Hm|]].
  now rewrite (send_lead_email_assembly_raises cfg env lead_data history e Hc Hm).
Qed.

Lemma get_ai_response_no_notification cfg env text :
  notification_attempts (events (get_ai_response cfg env text)) = [].
Proof.
  unfold get_ai_response.
  destruct (embeddings_init env) as [[]|?]; [|reflexivity].
  destruct (path_exists env); [|reflexivity].
  destruct (faiss_load env) as [[]|?]; [|reflexivity].
  destruct (rag_invoke env) as [?|?]; reflexivity.
Qed.

Lemma events_bind_ret {A B} (m : Eff A) (f : A → B) :
  events (do x <- m in ret (f x)) = events m.
Proof. destruct m as [t [a|e]]; cbn; rewrite ?app_nil_r; reflexivity. Qed.

Lemma outcome_bind_ret {A B} (m : Eff A) (f : A → B) :
  outcome (do x <- m in ret (f x)) =
  match outcome m with Ok a => Ok (f a) | Raise e => Raise e end.
Proof. destruct m as [t [a|e]]; reflexivity. Qed.

(** X3.  Where a chat call can fail.  A call that raises is in one of two
    places.  Either its session awaits neither the name nor the email and
    its text holds no trigger phrase: it raises the exception of
    [get_ai_response] and has notified nobody.  Or its session awaits the
    email and its text passes the test of line 84: it raises the exception
    that [MIMEText] raised inside [send_lead_email], with the mail relay
    configured, after the one notification attempt and nothing else.  A call
    in the name step, in the rejected email step or at the start of a
    capture returns a response and does nothing to the outside world; and no
    call whose session awaits the name or the email, or whose text fires
    the detector, calls the answer function (no embedding model, file system
    test, vector store, language model or random choice). *)
Theorem chat_failure_points str_lower cfg env sessions request_data :
  let sid := resolve_session_id env request_data in
  let text := message request_data in
  let session := (get_session (now_created env) sessions sid).2 in
  let call := chat_endpoint str_lower cfg env sessions request_data in
  let lead := <["email" := text]> (user_data session) in
  let history := message_history session ++ [user_message env text] in
  (∀ e, outcome call.2 = Raise e →
     (awaiting_action session ≠ Some "get_name"
      ∧ awaiting_action session ≠ Some "get_email"
      ∧ detect_lead_intent str_lower cfg text = false
      ∧ outcome (get_ai_response cfg env text) = Raise e
      ∧ notification_attempts (events call.2) = [])
     ∨ (awaiting_action session = Some "get_email"
        ∧ looks_like_email text = true
        ∧ smtp_configured cfg = true
        ∧ mime_text env (lead_body lead history) = Raise e
        ∧ events call.2 = [EvSendLeadEmail lead history]))
  ∧ (awaiting_action session = Some "get_name"
     ∨ (awaiting_action session = Some "get_email" ∧ looks_like_email text = false)
     ∨ (awaiting_action session ≠ Some "get_email"
        ∧ detect_lead_intent str_lower cfg text = true) →
     (∃ r, outcome call.2 = Ok r) ∧ events call.2 = [])
  ∧ (awaiting_action session = Some "get_name"
     ∨ awaiting_action session = Some "get_email"
     ∨ detect_lead_intent str_lower cfg text = true →
     answer_function_events (events call.2) = []).
Proof.
  intros sid text session call lead history. unfold looks_like_email.
  pose proof (chat_endpoint_result str_lower cfg env sessions request_data) as Hres.
  cbn zeta in Hres. fold sid session text call in Hres.
  set (flow := main_logic_flow str_lower cfg env
                 (append_message (user_message env text) session) text) in Hres.
  assert (Hev : events call.2 = events flow.2) by now rewrite Hres.
  assert (Hout : outcome call.2 =
                 match outcome flow.2 with
                 | Ok reply => Ok {| response := response_text reply;
                                     resp_session_id := sid;
                                     confidence := reply_confidence reply;
                                     requires_action := reply_requires_action reply |}
                 | Raise e => Raise e
                 end) by now rewrite Hres.
  rewrite Hev, Hout. clear Hres Hev Hout. subst flow.
  split; [|split].
  - intros e. flow_cases; cbn [fst snd outcome events ret]; try discriminate.
    + rewrite outcome_bind_ret, events_bind_ret.
      cbn [set_awaiting_action set_user_data append_message user_data message_history].
      fold lead history.
      destruct (outcome (send_lead_email cfg env lead history)) as [u|e'] eqn:Ho;
        [discriminate|].
      intros [= ->]. right. cbn in Hemail.
      destruct (send_lead_email_raises_inv _ _ _ _ _ Ho) as (Hc & Hm & Hev).
      auto 6.
    + rewrite outcome_bind_ret, events_bind_ret.
      destruct (outcome (get_ai_response cfg env text)) as [ai|e'] eqn:Ho;
        [discriminate|].
      intros [= ->]. cbn in Hname, Hemail. left.
      repeat split; try assumption. apply get_ai_response_no_notification.
  - intros Hcap. flow_cases; cbn [fst snd outcome events ret]; eauto.
    + cbn in Hname, Hemail. destruct Hcap as [H|[[_ H]|[H _]]]; congruence.
    + cbn in Hname, Hemail. destruct Hcap as [H|[[H _]|[_ H]]]; congruence.
  - intros Hcap. flow_cases; cbn [fst snd outcome events ret]; eauto.
    + rewrite events_bind_ret. apply send_lead_email_no_answer_events.
    + cbn in Hname, Hemail. destruct Hcap as [H|[H|H]]; congruence.
Qed.

Lemma chat_failure_points_witness :
  outcome (chat_endpoint ascii_lower default_settings env_llm_down
             {[ "s1" := session_awaiting_name ]}
             (request "how does your automation work?" (Some "s1"))).2 =
    Ok {| response := "Thanks how does your automation work?! What's your email address?";
          resp_session_id := "s1";
          confidence := 9 # 10;
          requires_action := Some "get_email" |}.
Proof.
  destruct (chat_failure_points ascii_lower default_settings env_llm_down
              {[ "s1" := session_awaiting_name ]}
              (request "how does your automation work?" (Some "s1"))) as (_ & H & _).
  destruct H as [[r Hr] _]; [left; reflexivity|].
  rewrite Hr. cbn in Hr. injection Hr as <-. reflexivity.
Defined.

(** X4.  A chat call notifies at most once, and exactly when its session
    awaits the email and the text passes the test of line 84; the
    notification then carries the captured data with the new email, and the
    history up to and including the inbound message. *)
Theorem notification_exactly_on_accepted_email str_lower cfg env sessions request_data :
  let sid := resolve_session_id env request_data in
  let text := message request_data in
  let session := (get_session (now_created env) sessions sid).2 in
  let call := chat_endpoint str_lower cfg env sessions request_data in
  notification_attempts (events call.2) =
  if decide (awaiting_action session = Some "get_email") then
    if looks_like_email text then
      [EvSendLeadEmail (<["email" := text]> (user_data session))
                       (message_history session ++ [user_message env text])]
    else []
  else [].
Proof.
  intros sid text session call. unfold call, looks_like_email.
  rewrite chat_endpoint_result. fold sid. fold session. fold text.
  unfold events at 1. cbn [fst snd].
  flow_cases; cbn [fst snd outcome events ret awaiting_action append_message] in *.
  - rewrite Hname. destruct (decide _) as [Hd|_]; [discriminate Hd | reflexivity].
  - rewrite events_bind_ret. apply send_lead_email_attempts.
  - reflexivity.
  - reflexivity.
  - rewrite events_bind_ret. apply get_ai_response_no_notification.
Qed.

Lemma get_ai_response_values cfg env text ai :
  outcome (get_ai_response cfg env text) = Ok ai →
  (path_exists env = false ∧
   ai = {| ai_response := KNOWLEDGE_BASE_NOT_FOUND; ai_confidence := 0 # 1 |})
  ∨ (path_exists env = true ∧ ai_confidence ai = 95 # 100 ∧
     ∃ greeting answer,
       In greeting greetings ∧ rag_invoke env = Ok answer ∧
       ai_response ai = greeting +:+ " " +:+ answer).
Proof.
  unfold get_ai_response, random_choice.
  set (greeting := nth (random_index env mod length greetings) greetings "").
  assert (Hin : In greeting greetings).
  { apply nth_In. apply Nat.mod_upper_bound. discriminate. }
  clearbody greeting.
  destruct (embeddings_init env) as [[]|?]; [|discriminate].
  destruct (path_exists env).
  - destruct (faiss_load env) as [[]|?]; [|discriminate].
    destruct (rag_invoke env) as [answer|?]; [|discriminate].
    cbn. intros [= <-]. right. split; [reflexivity | split; [reflexivity|]].
    exists greeting, answer. split; [exact Hin | split; reflexivity].
  - cbn. intros [= <-]. left. split; reflexivity.
Qed.

(** X5.  What a response asks for is what the session then awaits.  When
    the session of the call awaits one of the three known values and the
    call returns, the [requires_action] of the response equals the
    [awaiting_action] stored for the session, and is itself absent,
    ["get_name"] or ["get_email"]. *)
Theorem requires_action_mirrors_state str_lower cfg env sessions request_data r :
  let sid := resolve_session_id env request_data in
  let session := (get_session (now_created env) sessions sid).2 in
  let call := chat_endpoint str_lower cfg env sessions request_data in
  known_action (awaiting_action session) →
  outcome call.2 = Ok r →
  (∃ session', call.1 !! sid = Some session' ∧
               awaiting_action session' = requires_action r)
  ∧ known_action (requires_action r).
Proof.
  intros sid session call Hk. unfold call.
  rewrite chat_endpoint_store, chat_endpoint_result. fold sid. fold session.
  unfold outcome at 1. cbn [fst snd]. rewrite lookup_insert_eq.
  unfold known_action in *.
  flow_cases; cbn [fst snd outcome events ret awaiting_action append_message] in *.
  - intros [= <-]. cbn. eauto 6.
  - rewrite outcome_bind_ret.
    destruct (outcome (send_lead_email _ _ _ _)) as [u|e]; [|discriminate].
    intros [= <-]. cbn. eauto 6.
  - intros [= <-]. cbn. eauto 6.
  - intros [= <-]. cbn. eauto 6.
  - rewrite outcome_bind_ret.
    destruct (outcome (get_ai_response _ _ _)) as [ai|e]; [|discriminate].
    intros [= <-]. destruct Hk as [Hk|[Hk|Hk]]; [|contradiction..].
    split; [|cbn; auto].
    eexists. split; [reflexivity|]. cbn. exact Hk.
Qed.

Lemma requires_action_mirrors_state_witness :
  known_action (awaiting_action session_awaiting_name)
  ∧ ∃ session',
      (chat_endpoint ascii_lower default_settings env_all_up
         {[ "s1" := session_awaiting_name ]} (request "Ada" (Some "s1"))).1 !! "s1" =
        Some session'
      ∧ awaiting_action session' = Some "get_email".
Proof.
  assert (Hk : known_action (awaiting_action session_awaiting_name))
    by (right; left; reflexivity).
  split; [exact Hk|].
  destruct (requires_action_mirrors_state ascii_lower default_settings env_all_up
              {[ "s1" := session_awaiting_name ]} (request "Ada" (Some "s1"))
              {| response := name_acknowledgment "Ada"; resp_session_id := "s1";
                 confidence := 9 # 10; requires_action := Some "get_email" |})
    as [[s' [Hs' Ha]] _]; [right; left; reflexivity | reflexivity |].
  exists s'. split; [exact Hs' | exact Ha].
Defined.

(** X6.  The confidence of a response is one of 0.0, 0.5, 0.9, 0.95 and
    1.0; the initial value 0.7 of line 72 is overwritten on every path and
    never returned.  It is 1.0 exactly when the call notified (a lead was
    captured), and when it is 0.0 the response is the knowledge-base error
    and the knowledge store path does not exist. *)
Theorem response_confidence_values str_lower cfg env sessions request_data r :
  let call := chat_endpoint str_lower cfg env sessions request_data in
  outcome call.2 = Ok r →
  In (confidence r) [0 # 1; 5 # 10; 9 # 10; 95 # 100; 1 # 1]
  ∧ confidence r ≠ 7 # 10
  ∧ (confidence r = 1 # 1 ↔ notification_attempts (events call.2) ≠ [])
  ∧ (confidence r = 0 # 1 →
       response r = KNOWLEDGE_BASE_NOT_FOUND ∧ path_exists env = false).
Proof.
  intros call. unfold call.
  rewrite chat_endpoint_result.
  unfold outcome at 1, events at 1. cbn [fst snd].
  flow_cases; cbn [fst snd outcome events ret].
  - intros [= <-]. cbn.
    split; [auto 8 | split; [discriminate | split; [|discriminate]]].
    split; [discriminate | intros H; now destruct H].
  - rewrite outcome_bind_ret, events_bind_ret, send_lead_email_attempts.
    destruct (outcome (send_lead_email _ _ _ _)) as [u|e]; [|discriminate].
    intros [= <-]. cbn.
    split; [auto 8 | split; [discriminate | split; [|discriminate]]].
    split; [intros _; discriminate | reflexivity].
  - intros [= <-]. cbn.
    split; [auto 8 | split; [discriminate | split; [|discriminate]]].
    split; [discriminate | intros H; now destruct H].
  - intros [= <-]. cbn.
    split; [auto 8 | split; [discriminate | split; [|discriminate]]].
    split; [discriminate | intros H; now destruct H].
  - rewrite outcome_bind_ret, events_bind_ret, get_ai_response_no_notification.
    destruct (outcome (get_ai_response _ _ _)) as [ai|e] eqn:Ho; [|discriminate].
    intros [= <-]. cbn [confidence response].
    destruct (get_ai_response_values _ _ _ _ Ho) as [[Hp ->]|[Hp [Hc _]]].
    + cbn. split; [auto 8 | split; [discriminate | split; [|auto]]].
      split; [discriminate | intros H; now destruct H].
    + rewrite Hc. split; [cbn; auto 8 | split; [discriminate | split; [|discriminate]]].
      split; [discriminate | intros H; now destruct H].
Qed.

Lemma response_confidence_values_witness :
  confidence
    {| response := "Hey! We build automation systems.";
       resp_session_id := "s1"; confidence := 95 # 100; requires_action := None |}
    ≠ 7 # 10
  ∧ outcome (chat_endpoint ascii_lower default_settings env_all_up initial_sessions
               (request "how does your automation work?" (Some "s1"))).2 =
    Ok {| response := "Hey! We build automation systems.";
          resp_session_id := "s1"; confidence := 95 # 100; requires_action := None |}.
Proof.
  split; [|reflexivity].
  destruct (response_confidence_values ascii_lower default_settings env_all_up
              initial_sessions (request "how does your automation work?" (Some "s1"))
              {| response := "Hey! We build automation systems.";
                 resp_session_id := "s1"; confidence := 95 # 100;
                 requires_action := None |} eq_refl) as [_ [H _]].
  exact H.
Defined.

(* ===================================================================== *)
(** ** Further properties: the dialogue as a whole                        *)
(* ===================================================================== *)

Lemma resolve_session_id_given env text sid :
  sid ≠ "" → resolve_session_id env (request text (Some sid)) = sid.
Proof. intros H. destruct sid; [contradiction | reflexivity]. Qed.

Lemma session_after_start str_lower cfg env request_data session :
  awaiting_action session = None →
  detect_lead_intent str_lower cfg (message request_data) = true →
  session_after str_lower cfg env request_data session =
  {| created_at := created_at session;
     message_history :=
       message_history session ++
       [user_message env (message request_data); assistant_message env NAME_PROMPT];
     awaiting_action := Some "get_name";
     user_data := user_data session |}.
Proof.
  intros Ha Hd. unfold session_after.
  rewrite main_logic_flow_start_capture; [| exact Ha | exact Hd].
  unfold append_message, set_awaiting_action. cbn.
  rewrite <- app_assoc. reflexivity.
Qed.

Lemma session_after_get_name str_lower cfg env request_data session :
  awaiting_action session = Some "get_name" →
  session_after str_lower cfg env request_data session =
  {| created_at := created_at session;
     message_history :=
       message_history session ++
       [user_message env (message request_data);
        assistant_message env (name_acknowledgment (message request_data))];
     awaiting_action := Some "get_email";
     user_data := <["name" := message request_data]> (user_data session) |}.
Proof.
  intros Ha. unfold session_after.
  rewrite main_logic_flow_get_name; [| exact Ha].
  unfold append_message, set_awaiting_action, set_user_data. cbn.
  rewrite <- app_assoc. reflexivity.
Qed.

Lemma session_after_email_valid str_lower cfg env request_data session :
  awaiting_action session = Some "get_email" →
  looks_like_email (message request_data) = true →
  let history := message_history session ++ [user_message env (message request_data)] in
  let lead := <["email" := message request_data]> (user_data session) in
  session_after str_lower cfg env request_data session =
  {| created_at := created_at session;
     message_history :=
       match outcome (send_lead_email cfg env lead history) with
       | Ok _ => history ++
                 [assistant_message env (email_confirmation (message request_data))]
       | Raise _ => history
       end;
     awaiting_action := None;
     user_data := lead |}.
Proof.
  intros Ha Hv history lead. unfold session_after.
  rewrite main_logic_flow_get_email_valid; [| exact Ha | exact Hv].
  cbn [fst snd]. rewrite outcome_bind_ret.
  cbn [append_message set_awaiting_action set_user_data message_history user_data].
  fold history lead.
  destruct (outcome (send_lead_email cfg env lead history)); reflexivity.
Qed.

Lemma session_after_email_invalid str_lower cfg env request_data session :
  awaiting_action session = Some "get_email" →
  looks_like_email (message request_data) = false →
  session_after str_lower cfg env request_data session =
  {| created_at := created_at session;
     message_history :=
       message_history session ++
       [user_message env (message request_data);
        assistant_message env EMAIL_RETRY_PROMPT];
     awaiting_action := Some "get_email";
     user_data := user_data session |}.
Proof.
  intros Ha Hv. unfold session_after.
  rewrite main_logic_flow_get_email_invalid; [| exact Ha | exact Hv].
  unfold append_message, set_awaiting_action. cbn.
  rewrite <- app_assoc. reflexivity.
Qed.

(** X7.  The dialogue composes.  On a session that awaits nothing (new or
    existing), three calls under one identifier, a text that fires the
    detector, then any text, then a text that passes the email test, leave
    the session awaiting nothing, with the second text stored as the name
    and the third as the email beside what was captured before.  The third
    call notifies once, with exactly that data and the history up to the
    email message, and ends as the notification sender ends: when the sender
    returns, which it does whenever the mail relay is not fully configured
    or the message can be assembled, the call returns the confirmation and
    the history has six more entries; when the sender raises, the call
    raises the same exception and the history has five more entries. *)
Theorem lead_capture_dialogue str_lower cfg env1 env2 env3 sessions sid trigger name email :
  let session := (get_session (now_created env1) sessions sid).2 in
  let before :=
    chat_calls str_lower cfg
      [(env1, request trigger (Some sid)); (env2, request name (Some sid))] sessions in
  let last := chat_endpoint str_lower cfg env3 before (request email (Some sid)) in
  let captured := <["email" := email]> (<["name" := name]> (user_data session)) in
  sid ≠ "" →
  awaiting_action session = None →
  detect_lead_intent str_lower cfg trigger = true →
  looks_like_email email = true →
  (∃ session',
     last.1 !! sid = Some session'
     ∧ awaiting_action session' = None
     ∧ user_data session' = captured
     ∧ created_at session' = created_at session
     ∧ length (message_history session') =
         length (message_history session) +
         match outcome last.2 with Ok _ => 6 | Raise _ => 5 end)
  ∧ ∃ history,
      notification_attempts (events last.2) = [EvSendLeadEmail captured history]
      ∧ message_history session `prefix_of` history
      ∧ length history = length (message_history session) + 5
      ∧ outcome last.2 =
          match outcome (send_lead_email cfg env3 captured history) with
          | Ok _ => Ok {| response := email_confirmation email; resp_session_id := sid;
                          confidence := 1 # 1; requires_action := None |}
          | Raise e => Raise e
          end
      ∧ (smtp_configured cfg = false ∨ mime_text env3 (lead_body captured history) = Ok tt →
         outcome last.2 =
           Ok {| response := email_confirmation email; resp_session_id := sid;
                 confidence := 1 # 1; requires_action := None |}).
Proof.
  intros session before last captured Hsid Ha Hd Hv.
  set (r1 := request trigger (Some sid)).
  set (r2 := request name (Some sid)).
  set (r3 := request email (Some sid)).
  set (s1 := session_after str_lower cfg env1 r1 session).
  set (s2 := session_after str_lower cfg env2 r2 s1).
  assert (Hs1 : s1 = {| created_at := created_at session;
     message_history := message_history session ++
       [user_message env1 trigger; assistant_message env1 NAME_PROMPT];
     awaiting_action := Some "get_name"; user_data := user_data session |})
    by (apply session_after_start; assumption).
  assert (Hs2 : s2 = {| created_at := created_at s1;
     message_history := message_history s1 ++
       [user_message env2 name; assistant_message env2 (name_acknowledgment name)];
     awaiting_action := Some "get_email";
     user_data := <["name" := name]> (user_data s1) |})
    by (apply session_after_get_name; rewrite Hs1; reflexivity).
  assert (Hbefore : before !! sid = Some s2).
  { unfold before. rewrite !chat_calls_cons. cbn [chat_calls fold_left fst snd].
    rewrite (chat_endpoint_store_after _ _ env2).
    rewrite (resolve_session_id_given _ _ _ Hsid), lookup_insert_eq.
    f_equal. unfold s2. f_equal.
    rewrite (chat_endpoint_store_after _ _ env1).
    rewrite (resolve_session_id_given _ _ _ Hsid).
    unfold get_session at 1. rewrite lookup_insert_eq. reflexivity. }
  assert (Ha2 : awaiting_action s2 = Some "get_email") by (rewrite Hs2; reflexivity).
  set (history := message_history s2 ++ [user_message env3 email]).
  assert (Hcap : <["email" := email]> (user_data s2) = captured)
    by (unfold captured; rewrite Hs2, Hs1; reflexivity).
  assert (Hlast : last =
    match outcome (send_lead_email cfg env3 captured history) with
    | Ok _ =>
        (<[sid := {| created_at := created_at s2;
                     message_history :=
                       history ++ [assistant_message env3 (email_confirmation email)];
                     awaiting_action := None;
                     user_data := captured |}]> before,
         (events (send_lead_email cfg env3 captured history),
          Ok {| response := email_confirmation email; resp_session_id := sid;
                confidence := 1 # 1; requires_action := None |}))
    | Raise e =>
        (<[sid := {| created_at := created_at s2;
                     message_history := history;
                     awaiting_action := None;
                     user_data := captured |}]> before,
         (events (send_lead_email cfg env3 captured history), Raise e))
    end).
  { unfold last.
    pose proof (chat_endpoint_email_valid str_lower cfg env3 before
                  (request email (Some sid)) s2) as H.
    cbn zeta in H. rewrite (resolve_session_id_given _ _ _ Hsid) in H.
    change (message (request email (Some sid))) with email in H.
    rewrite Hcap in H. fold history in H.
    apply H; [exact Hbefore | exact Ha2 | exact Hv]. }
  assert (Hlen : length history = length (message_history session) + 5).
  { unfold history. rewrite Hs2, Hs1. cbn [message_history].
    rewrite !length_app. cbn. lia. }
  split.
  - rewrite Hlast.
    destruct (outcome (send_lead_email cfg env3 captured history));
      cbn [fst snd outcome]; rewrite lookup_insert_eq; eexists; (split; [reflexivity|]);
      cbn [awaiting_action user_data created_at message_history];
      rewrite ?length_app, Hlen, Hs2, Hs1; cbn; repeat split; lia.
  - exists history.
    assert (Hev : events last.2 = events (send_lead_email cfg env3 captured history)).
    { rewrite Hlast. now destruct (outcome (send_lead_email cfg env3 captured history)). }
    assert (Hout : outcome last.2 =
      match outcome (send_lead_email cfg env3 captured history) with
      | Ok _ => Ok {| response := email_confirmation email; resp_session_id := sid;
                      confidence := 1 # 1; requires_action := None |}
      | Raise e => Raise e
      end).
    { rewrite Hlast. now destruct (outcome (send_lead_email cfg env3 captured history)). }
    split; [rewrite Hev; apply send_lead_email_attempts|].
    split; [|split; [exact Hlen | split; [exact Hout|]]].
    + unfold history. rewrite Hs2, Hs1. cbn [message_history].
      rewrite <- !app_assoc. apply prefix_app_r. reflexivity.
    + intros Hret. rewrite Hout.
      now rewrite (send_lead_email_returns cfg env3 captured history Hret).
Qed.

Lemma lead_capture_dialogue_witness :
  detect_lead_intent ascii_lower default_settings "Can I get a quote?" = true
  ∧ looks_like_email "ada@example.com" = true
  ∧ ∃ history,
      notification_attempts
        (events
           (chat_endpoint ascii_lower default_settings env_smtp_rejects
              (chat_calls ascii_lower default_settings
                 [(env_all_up, request "Can I get a quote?" (Some "s1"));
                  (env_all_up, request "Ada" (Some "s1"))] initial_sessions)
              (request "ada@example.com" (Some "s1"))).2) =
      [EvSendLeadEmail {[ "name" := "Ada"; "email" := "ada@example.com" ]} history]
      ∧ length history = 5
      ∧ outcome
          (chat_endpoint ascii_lower default_settings env_smtp_rejects
             (chat_calls ascii_lower default_settings
                [(env_all_up, request "Can I get a quote?" (Some "s1"));
                 (env_all_up, request "Ada" (Some "s1"))] initial_sessions)
             (request "ada@example.com" (Some "s1"))).2 =
        Ok {| response := email_confirmation "ada@example.com"; resp_session_id := "s1";
              confidence := 1 # 1; requires_action := None |}.
Proof.
  split; [reflexivity | split; [reflexivity|]].
  destruct (lead_capture_dialogue ascii_lower default_settings
              env_all_up env_all_up env_smtp_rejects initial_sessions "s1"
              "Can I get a quote?" "Ada" "ada@example.com")
    as [_ [history (Hn & Hp & Hl & Ho & Hret)]];
    [discriminate | reflexivity | reflexivity | reflexivity |].
  exists history. split; [|split; [exact Hl|]].
  - rewrite Hn. f_equal.
  - apply Hret. left. reflexivity.
Defined.

(** X8.  The email step can be retried without end and without damage.
    While the session awaits the email, any number of calls whose texts
    fail the email test leave it awaiting the email with its captured data
    and creation time unchanged; its history gains, per call and in order,
    the inbound text and the retry prompt, and nothing else. *)
Theorem email_retries_keep_state str_lower cfg (attempts : list (Env * string))
    sessions sid session :
  let calls := map (λ a, (a.1, request a.2 (Some sid))) attempts in
  sid ≠ "" →
  sessions !! sid = Some session →
  awaiting_action session = Some "get_email" →
  Forall (λ a, looks_like_email a.2 = false) attempts →
  chat_calls str_lower cfg calls sessions !! sid =
  Some {| created_at := created_at session;
          message_history :=
            message_history session ++
            flat_map (λ a, [user_message a.1 a.2;
                            assistant_message a.1 EMAIL_RETRY_PROMPT]) attempts;
          awaiting_action := Some "get_email";
          user_data := user_data session |}.
Proof.
  intros calls Hsid. unfold calls. clear calls.
  revert sessions session.
  induction attempts as [|[env text] attempts IH]; intros sessions session Hs Ha Hall.
  - cbn. rewrite app_nil_r, Hs, <- Ha. destruct session; reflexivity.
  - apply Forall_cons in Hall as [Hbad Hall]. cbn [fst snd] in Hbad.
    cbn [map fst snd flat_map]. rewrite chat_calls_cons. cbn [fst snd].
    set (s1 := session_after str_lower cfg env (request text (Some sid)) session).
    assert (Hs1 : (chat_endpoint str_lower cfg env sessions
                     (request text (Some sid))).1 !! sid = Some s1).
    { rewrite chat_endpoint_store_after, (resolve_session_id_given _ _ _ Hsid).
      rewrite lookup_insert_eq, (get_session_existing _ _ _ _ Hs). reflexivity. }
    assert (Heq : s1 = {| created_at := created_at session;
       message_history := message_history session ++
         [user_message env text; assistant_message env EMAIL_RETRY_PROMPT];
       awaiting_action := Some "get_email"; user_data := user_data session |})
      by (apply session_after_email_invalid; assumption).
    rewrite (IH _ s1 Hs1); [| rewrite Heq; reflexivity | exact Hall].
    rewrite Heq. cbn [created_at message_history user_data].
    rewrite <- app_assoc. reflexivity.
Qed.

Lemma email_retries_keep_state_witness :
  Forall (λ a : Env * string, looks_like_email a.2 = false)
    [(env_all_up, "ada at example"); (env_llm_down, "ada@example")]
  ∧ (chat_calls ascii_lower default_settings
       [(env_all_up, request "ada at example" (Some "s1"));
        (env_llm_down, request "ada@example" (Some "s1"))]
       {[ "s1" := session_awaiting_email ]} !! "s1") ≫= awaiting_action =
    Some "get_email".
Proof.
  assert (H : Forall (λ a : Env * string, looks_like_email a.2 = false)
    [(env_all_up, "ada at example"); (env_llm_down, "ada@example")])
    by (repeat constructor).
  split; [exact H|].
  pose proof (email_retries_keep_state ascii_lower default_settings
                [(env_all_up, "ada at example"); (env_llm_down, "ada@example")]
                {[ "s1" := session_awaiting_email ]} "s1" session_awaiting_email) as E.
  cbn zeta in E. cbn [map fst snd] in E.
  rewrite E; [reflexivity | discriminate | reflexivity | reflexivity | exact H].
Defined.

(* ===================================================================== *)
(** ** Further properties: what the store holds after any run             *)
(* ===================================================================== *)

(** A property of sessions that new sessions have and a call preserves
    holds of every session after any sequence of calls. *)
Lemma chat_calls_sessions_ind str_lower cfg (P : Session → Prop) :
  (∀ now, P (new_session now)) →
  (∀ env request_data session,
     P session → P (session_after str_lower cfg env request_data session)) →
  ∀ calls sessions,
    (∀ sid session, sessions !! sid = Some session → P session) →
    ∀ sid session,
      chat_calls str_lower cfg calls sessions !! sid = Some session → P session.
Proof.
  intros Hnew Hstep calls.
  induction calls as [|[env req] calls IH]; intros sessions Hall sid session.
  - apply Hall.
  - rewrite chat_calls_cons. cbn [fst snd]. apply IH.
    intros k s. rewrite chat_endpoint_store_after, lookup_insert.
    case_decide as Hd.
    + intros [= <-]. apply Hstep.
      unfold get_session. destruct (sessions !! _) as [s0|] eqn:E; cbn [snd].
      * exact (Hall _ _ E).
      * apply Hnew.
    + apply Hall.
Qed.

Lemma session_after_captured_data_ok str_lower cfg env request_data session :
  captured_data_ok session →
  captured_data_ok (session_after str_lower cfg env request_data session).
Proof.
  intros (Hdom & Hmail & Hnm). unfold session_after, captured_data_ok.
  flow_cases;
    cbn [fst snd outcome ret awaiting_action user_data append_message
         set_awaiting_action set_user_data] in *.
  - split; [|split].
    + rewrite dom_insert. apply union_subseteq. split; [|exact Hdom].
      apply singleton_subseteq_l, elem_of_union. left. now apply elem_of_singleton.
    + intros email. rewrite lookup_insert_ne by discriminate.
      intros He. destruct (Hmail _ He) as [Hv _]. split; [exact Hv|].
      rewrite lookup_insert_eq. eauto.
    + intros _. rewrite lookup_insert_eq. eauto.
  - rewrite outcome_bind_ret.
    assert (Hany : ∀ s' : Session,
              user_data s' = <["email" := message request_data]> (user_data session) →
              awaiting_action s' = None →
              dom (user_data s') ⊆ ({[ "name"; "email" ]} : gset string)
              ∧ (∀ email, user_data s' !! "email" = Some email →
                   looks_like_email email = true ∧ is_Some (user_data s' !! "name"))
              ∧ (awaiting_action s' = Some "get_email" → is_Some (user_data s' !! "name")));
      [| destruct (outcome (send_lead_email _ _ _ _)); apply Hany; reflexivity].
    intros s' -> ->.
    split; [|split].
    + rewrite dom_insert. apply union_subseteq. split; [|exact Hdom].
      apply singleton_subseteq_l, elem_of_union. right. now apply elem_of_singleton.
    + intros email. rewrite lookup_insert_eq. intros [= <-].
      split; [exact Hvalid|]. rewrite lookup_insert_ne by discriminate. auto.
    + discriminate.
  - split; [exact Hdom | split; [exact Hmail | auto]].
  - split; [exact Hdom | split; [exact Hmail | discriminate]].
  - rewrite outcome_bind_ret.
    destruct (outcome (get_ai_response _ _ _));
      cbn [awaiting_action user_data append_message];
      (split; [exact Hdom | split; [exact Hmail | exact Hnm]]).
Qed.

(** X9.  After any sequence of chat calls from the empty store, in every
    session: [user_data] has no key but [name] and [email]; an email, when
    present, contains an at sign and a dot and is accompanied by a name;
    and a session that awaits the email already has a name. *)
Theorem captured_data_invariant str_lower cfg calls sid session :
  chat_calls str_lower cfg calls initial_sessions !! sid = Some session →
  dom (user_data session) ⊆ ({[ "name"; "email" ]} : gset string)
  ∧ (∀ email, user_data session !! "email" = Some email →
       str_contains "@" email = true ∧ str_contains "." email = true
       ∧ is_Some (user_data session !! "name"))
  ∧ (awaiting_action session = Some "get_email" →
       is_Some (user_data session !! "name")).
Proof.
  intros H.
  assert (Hok : captured_data_ok session).
  { refine (chat_calls_sessions_ind str_lower cfg captured_data_ok _ _
              calls initial_sessions _ sid session H).
    - intros now. unfold captured_data_ok, new_session. cbn.
      split; [rewrite dom_empty; apply empty_subseteq|].
      split; [intros email He; now rewrite lookup_empty in He | discriminate].
    - intros. now apply session_after_captured_data_ok.
    - intros k s Hk. unfold initial_sessions in Hk. now rewrite lookup_empty in Hk. }
  destruct Hok as (Hdom & Hemail & Hname).
  split; [exact Hdom | split; [|exact Hname]].
  intros email He. destruct (Hemail _ He) as [Hv Hn].
  unfold looks_like_email in Hv. apply andb_true_iff in Hv as [H1 H2]. auto.
Qed.

Lemma captured_data_invariant_witness :
  ∃ session,
    chat_calls ascii_lower default_settings
      [(env_all_up, request "Can I get a quote?" (Some "s1"));
       (env_all_up, request "Ada" (Some "s1"));
       (env_all_up, request "ada@example.com" (Some "s1"))]
      initial_sessions !! "s1" = Some session
    ∧ ∀ email, user_data session !! "email" = Some email →
        str_contains "@" email = true ∧ str_contains "." email = true
        ∧ is_Some (user_data session !! "name").
Proof.
  destruct (chat_calls ascii_lower default_settings
      [(env_all_up, request "Can I get a quote?" (Some "s1"));
       (env_all_up, request "Ada" (Some "s1"));
       (env_all_up, request "ada@example.com" (Some "s1"))]
      initial_sessions !! "s1") as [session|] eqn:E.
  - exists session. split; [reflexivity|].
    apply (captured_data_invariant ascii_lower default_settings _ "s1" session E).
  - vm_compute in E. discriminate E.
Defined.

(** The store after a call maps the identifier of the call to
    [session_after] of the session the call worked on. *)
Lemma chat_endpoint_lookup_own str_lower cfg env sessions request_data :
  let sid := resolve_session_id env request_data in
  (chat_endpoint str_lower cfg env sessions request_data).1 !! sid =
  Some (session_after str_lower cfg env request_data
          (get_session (now_created env) sessions sid).2).
Proof. intros sid. rewrite chat_endpoint_store_after. apply lookup_insert_eq. Qed.

Lemma chat_endpoint_response_id str_lower cfg env sessions request_data r :
  outcome (chat_endpoint str_lower cfg env sessions request_data).2 = Ok r →
  resp_session_id r = resolve_session_id env request_data.
Proof.
  rewrite chat_endpoint_result. unfold outcome at 1. cbn [snd].
  destruct (outcome _); [intros [= <-]; reflexivity | discriminate].
Qed.

(** X10.  The identifier a response carries leads back to the session.
    Whatever identifier the request had (none, empty, or given), sending
    the [session_id] of the response with a later request selects, under any
    clock and UUID generator, the very session the first call left in the
    store; the later call creates no session. *)
Theorem session_id_round_trip str_lower cfg env sessions request_data r env' text' :
  let sid := resolve_session_id env request_data in
  let call := chat_endpoint str_lower cfg env sessions request_data in
  let follow_up := request text' (Some (resp_session_id r)) in
  outcome call.2 = Ok r →
  resolve_session_id env' follow_up = sid
  ∧ get_session (now_created env') call.1 (resp_session_id r) =
      (call.1,
       session_after str_lower cfg env request_data
         (get_session (now_created env) sessions sid).2)
  ∧ dom (chat_endpoint str_lower cfg env' call.1 follow_up).1 = dom call.1.
Proof.
  intros sid call follow_up Hr.
  assert (Hid : resp_session_id r = sid)
    by (apply (chat_endpoint_response_id _ _ _ _ _ _ Hr)).
  assert (Hres : resolve_session_id env' follow_up = sid).
  { unfold follow_up. rewrite Hid. apply resolve_session_id_given.
    apply resolve_session_id_nonempty. }
  assert (Hown := chat_endpoint_lookup_own str_lower cfg env sessions request_data).
  cbn zeta in Hown. fold sid in Hown. fold call in Hown.
  split; [exact Hres | split].
  - rewrite Hid. now apply get_session_existing.
  - rewrite chat_endpoint_store_after, Hres, dom_insert_L.
    apply (anti_symm (⊆)); [|apply union_subseteq_r].
    apply union_subseteq. split; [|reflexivity].
    apply singleton_subseteq_l, elem_of_dom. rewrite Hown. eauto.
Qed.

Lemma session_id_round_trip_witness :
  resolve_session_id env_llm_down
    (request "Ada" (Some "3b241101-e2bb-4255-a0c1-d2e3f4a5b6c7")) =
  resolve_session_id env_all_up (request "what does it cost?" None).
Proof.
  destruct (session_id_round_trip ascii_lower default_settings env_all_up
              initial_sessions (request "what does it cost?" None)
              {| response := NAME_PROMPT;
                 resp_session_id := "3b241101-e2bb-4255-a0c1-d2e3f4a5b6c7";
                 confidence := 9 # 10; requires_action := Some "get_name" |}
              env_llm_down "Ada" eq_refl) as [H _].
  exact H.
Defined.

(** X11.  [health_check] reports the number of sessions in the store.  A
    chat call raises that number by one when its identifier had no session
    and leaves it unchanged otherwise, whether the call returns or raises;
    over a sequence of calls the number never decreases and grows by at
    most the number of calls. *)
Theorem health_counts_sessions str_lower cfg now :
  sessions_active (health_check now initial_sessions) = 0
  ∧ (∀ env sessions request_data,
       sessions_active
         (health_check now (chat_endpoint str_lower cfg env sessions request_data).1) =
       sessions_active (health_check now sessions) +
       match sessions !! resolve_session_id env request_data with
       | Some _ => 0
       | None => 1
       end)
  ∧ (∀ calls sessions,
       sessions_active (health_check now sessions) ≤
         sessions_active (health_check now (chat_calls str_lower cfg calls sessions))
       ∧ sessions_active (health_check now (chat_calls str_lower cfg calls sessions)) ≤
         sessions_active (health_check now sessions) + length calls).
Proof.
  assert (Hone : ∀ env sessions request_data,
       size (chat_endpoint str_lower cfg env sessions request_data).1 =
       size sessions + match sessions !! resolve_session_id env request_data with
                       | Some _ => 0
                       | None => 1
                       end).
  { intros env sessions request_data.
    rewrite chat_endpoint_store_after, map_size_insert.
    destruct (sessions !! _); cbn; lia. }
  split; [reflexivity | split; [exact Hone|]].
  cbn [health_check sessions_active].
  intros calls. induction calls as [|[env req] calls IH]; intros sessions.
  - cbn. lia.
  - rewrite chat_calls_cons. cbn [fst snd length].
    specialize (IH (chat_endpoint str_lower cfg env sessions req).1).
    rewrite Hone in IH. destruct (sessions !! _); lia.
Qed.

(** X12.  [get_session_data] returns exactly what the store holds under
    the identifier and fails when it holds nothing.  Right after a chat call
    that returned, looking up the [session_id] of the response yields the
    session of the call, whose last history entry is the assistant message
    with the text of the response and whose entry before it is the inbound
    message. *)
Theorem get_session_data_reads_store str_lower cfg :
  (∀ sessions sid session,
     get_session_data sessions sid = Ok session ↔ sessions !! sid = Some session)
  ∧ (∀ sessions sid,
       (∃ e, get_session_data sessions sid = Raise e) ↔ sessions !! sid = None)
  ∧ (∀ env sessions request_data r,
       let call := chat_endpoint str_lower cfg env sessions request_data in
       outcome call.2 = Ok r →
       ∃ session' earlier,
         get_session_data call.1 (resp_session_id r) = Ok session'
         ∧ message_history session' =
             earlier ++ [user_message env (message request_data);
                         assistant_message env (response r)]).
Proof.
  split; [|split].
  - intros sessions sid session. unfold get_session_data.
    destruct (sessions !! sid); split; intros H; congruence.
  - intros sessions sid. unfold get_session_data.
    destruct (sessions !! sid); split; try discriminate; eauto.
    intros [e He]. discriminate.
  - intros env sessions request_data r call Hr.
    destruct (chat_endpoint_history str_lower cfg env sessions request_data)
      as [s' [Hst Hh]].
    fold call in Hst, Hh. rewrite Hr in Hh. cbn [appended] in Hh.
    exists s', (message_history
                  (get_session (now_created env) sessions
                     (resolve_session_id env request_data)).2).
    split; [|exact Hh].
    unfold get_session_data.
    rewrite (chat_endpoint_response_id _ _ _ _ _ _ Hr). fold call.
    rewrite Hst, lookup_insert_eq. reflexivity.
Qed.

Lemma get_session_data_reads_store_witness :
  get_session_data
    (chat_endpoint ascii_lower default_settings env_all_up
       {[ "s1" := session_awaiting_name ]} (request "Ada" (Some "s1"))).1 "s1" =
  Ok {| created_at := created_at session_awaiting_name;
        message_history :=
          message_history session_awaiting_name ++
          [user_message env_all_up "Ada";
           assistant_message env_all_up "Thanks Ada! What's your email address?"];
        awaiting_action := Some "get_email";
        user_data := {[ "name" := "Ada" ]} |}.
Proof.
  destruct (get_session_data_reads_store ascii_lower default_settings) as [H _].
  apply H. reflexivity.
Defined.

(** X13.  [get_session] is idempotent and the creation time is fixed by the
    first call: calling it again on the store it left, under any later
    clock, returns the same session and the same store. *)
Theorem get_session_idempotent now now' sessions sid :
  get_session now' (get_session now sessions sid).1 sid = get_session now sessions sid.
Proof.
  unfold get_session at 2 3. destruct (sessions !! sid) as [session|] eqn:E; cbn [fst].
  - now apply get_session_existing.
  - apply get_session_existing, lookup_insert_eq.
Qed.

(** What a call appends, exactly. *)
Lemma session_after_history_exact str_lower cfg env request_data session :
  message_history (session_after str_lower cfg env request_data session) =
  message_history session ++
  user_message env (message request_data) ::
  match outcome (main_logic_flow str_lower cfg env
                   (append_message (user_message env (message request_data)) session)
                   (message request_data)).2 with
  | Ok reply => [assistant_message env (response_text reply)]
  | Raise _ => []
  end.
Proof.
  unfold session_after.
  match goal with |- context [main_logic_flow ?l ?c ?e ?s ?m] =>
    destruct (main_logic_flow_frame l c e s m) as [_ [Hh _]];
    destruct (outcome (main_logic_flow l c e s m).2) as [reply|e'] end;
    cbn; cbn in Hh; rewrite Hh.
  - rewrite <- app_assoc. reflexivity.
  - reflexivity.
Qed.

Lemma session_after_history_ok str_lower cfg env request_data session :
  history_ok session →
  history_ok (session_after str_lower cfg env request_data session)
  ∧ message_history (session_after str_lower cfg env request_data session) ≠ [].
Proof.
  intros (Hhd & Hall & Hlen). unfold history_ok.
  rewrite session_after_history_exact.
  set (tail := match outcome _ with Ok reply => _ | Raise _ => [] end).
  assert (Htail : tail = [] ∨ ∃ text, tail = [assistant_message env text]).
  { unfold tail. destruct (outcome _); eauto. }
  clearbody tail.
  split; [|destruct (message_history session); discriminate].
  split; [|split].
  - intros first. destruct (message_history session) as [|m h] eqn:E; cbn.
    + intros [= <-]. reflexivity.
    + intros [= <-]. apply Hhd. reflexivity.
  - apply Forall_app. split; [exact Hall|]. constructor; [left; reflexivity|].
    destruct Htail as [->|[text ->]];
      [constructor | constructor; [right; reflexivity | constructor]].
  - unfold assistant_entries, user_entries in *.
    rewrite !List.filter_app, !length_app.
    destruct Htail as [->|[text ->]];
      cbn [List.filter role user_message assistant_message];
      repeat case_bool_decide; try congruence; cbn [length]; lia.
Qed.

(** A property [Q] that every written-back session has, given a property
    [P] of the session the call found or created, holds of every stored
    session after any sequence of calls. *)
Lemma chat_calls_stored_ind str_lower cfg (P Q : Session → Prop) :
  (∀ now, P (new_session now)) →
  (∀ session, Q session → P session) →
  (∀ env request_data session,
     P session → Q (session_after str_lower cfg env request_data session)) →
  ∀ calls sessions,
    (∀ sid session, sessions !! sid = Some session → Q session) →
    ∀ sid session,
      chat_calls str_lower cfg calls sessions !! sid = Some session → Q session.
Proof.
  intros Hnew HQP Hstep calls.
  induction calls as [|[env req] calls IH]; intros sessions Hall sid session.
  - apply Hall.
  - rewrite chat_calls_cons. cbn [fst snd]. apply IH.
    intros k s. rewrite chat_endpoint_store_after, lookup_insert.
    case_decide as Hd; [|apply Hall].
    intros [= <-]. apply Hstep.
    unfold get_session. destruct (sessions !! _) as [s0|] eqn:E; cbn [snd].
    + apply HQP. exact (Hall _ _ E).
    + apply Hnew.
Qed.

(** X14.  The shape of every history.  After any sequence of chat calls
    from the empty store, the history of every session is not empty and
    starts with a user entry; every entry is a user entry or an assistant
    entry; and the assistant entries never outnumber the user entries. *)
Theorem history_shape str_lower cfg calls sid session :
  chat_calls str_lower cfg calls initial_sessions !! sid = Some session →
  (∃ first rest, message_history session = first :: rest ∧ role first = "user")
  ∧ Forall (λ m, role m = "user" ∨ role m = "assistant") (message_history session)
  ∧ length (assistant_entries (message_history session)) ≤
      length (user_entries (message_history session)).
Proof.
  intros H.
  assert (HQ : history_ok session ∧ message_history session ≠ []).
  { refine (chat_calls_stored_ind str_lower cfg history_ok
              (λ s, history_ok s ∧ message_history s ≠ []) _ _ _
              calls initial_sessions _ sid session H).
    - intros now. unfold history_ok, new_session, assistant_entries, user_entries.
      cbn. split; [discriminate | split; [constructor | lia]].
    - intros s [Hs _]. exact Hs.
    - intros. now apply session_after_history_ok.
    - intros k s Hk. unfold initial_sessions in Hk. now rewrite lookup_empty in Hk. }
  destruct HQ as [(Hhd & Hall & Hlen) Hne].
  split; [|split; assumption].
  destruct (message_history session) as [|first rest]; [contradiction|].
  exists first, rest. split; [reflexivity|]. apply Hhd. reflexivity.
Qed.

Lemma history_shape_witness :
  ∃ session,
    chat_calls ascii_lower default_settings
      [(env_llm_down, request "hello" (Some "s1"));
       (env_all_up, request "hello again" (Some "s1"))]
      initial_sessions !! "s1" = Some session
    ∧ length (assistant_entries (message_history session)) ≤
        length (user_entries (message_history session)).
Proof.
  destruct (chat_calls ascii_lower default_settings
      [(env_llm_down, request "hello" (Some "s1"));
       (env_all_up, request "hello again" (Some "s1"))]
      initial_sessions !! "s1") as [session|] eqn:E.
  - exists session. split; [reflexivity|].
    apply (history_shape ascii_lower default_settings _ "s1" session E).
  - vm_compute in E. discriminate E.
Defined.

(* ===================================================================== *)
(** ** Further properties: the intent detector                            *)
(* ===================================================================== *)

Lemma string_app_assoc (a b c : string) : (a +:+ b) +:+ c = a +:+ b +:+ c.
Proof.
  induction a as [|x a IH]; [reflexivity|].
  change (String x ((a +:+ b) +:+ c) = String x (a +:+ b +:+ c)). now rewrite IH.
Qed.

Lemma ascii_lower_app (a b : string) :
  ascii_lower (a +:+ b) = ascii_lower a +:+ ascii_lower b.
Proof.
  induction a as [|x a IH]; [reflexivity|].
  change (String (ascii_to_lower x) (ascii_lower (a +:+ b)) =
          String (ascii_to_lower x) (ascii_lower a +:+ ascii_lower b)).
  now rewrite IH.
Qed.

(** X15.  Edge cases of the intent detector.  With no phrase configured it
    never fires; with the empty phrase configured it fires on every text
    (the empty string is a substring of any string); adding phrases never
    stops it from firing.  On ASCII text, with a [str.lower] that is right
    on ASCII text, it fires as soon as the text embeds, anywhere and in any
    letter case, a run of characters whose lowercase form is a configured
    phrase, word boundaries playing no part. *)
Theorem detect_lead_intent_edge_cases str_lower cfg :
  (LEAD_CAPTURE_PHRASES cfg = [] →
     ∀ text, detect_lead_intent str_lower cfg text = false)
  ∧ (In "" (LEAD_CAPTURE_PHRASES cfg) →
       ∀ text, detect_lead_intent str_lower cfg text = true)
  ∧ (∀ cfg' text,
       (∀ phrase, In phrase (LEAD_CAPTURE_PHRASES cfg) →
                  In phrase (LEAD_CAPTURE_PHRASES cfg')) →
       detect_lead_intent str_lower cfg text = true →
       detect_lead_intent str_lower cfg' text = true)
  ∧ (lower_agrees_on_ascii str_lower →
     ∀ before hit after,
       is_ascii_text (before +:+ hit +:+ after) = true →
       In (ascii_lower hit) (LEAD_CAPTURE_PHRASES cfg) →
       detect_lead_intent str_lower cfg (before +:+ hit +:+ after) = true).
Proof.
  split; [|split; [|split]].
  - intros Hnil text. unfold detect_lead_intent. rewrite Hnil. reflexivity.
  - intros Hin text. apply detect_lead_intent_spec.
    exists "". split; [exact Hin|]. exists "", (str_lower text). reflexivity.
  - intros cfg' text Hsub. rewrite !detect_lead_intent_spec.
    intros [phrase [Hin H]]. exists phrase. split; [now apply Hsub | exact H].
  - intros Hl before hit after Hascii Hin. apply detect_lead_intent_spec.
    exists (ascii_lower hit). split; [exact Hin|].
    exists (ascii_lower before), (ascii_lower after).
    rewrite (Hl _ Hascii), !ascii_lower_app. reflexivity.
Qed.

Lemma detect_lead_intent_edge_cases_witness :
  is_ascii_text "This is PRICEless" = true
  ∧ detect_lead_intent ascii_lower default_settings "This is PRICEless" = true.
Proof.
  split; [reflexivity|].
  destruct (detect_lead_intent_edge_cases ascii_lower default_settings)
    as [_ [_ [_ H]]].
  apply (H (λ s _, eq_refl) "This is " "PRICE" "less"); [reflexivity|].
  left. reflexivity.
Defined.

(* ===================================================================== *)
(** ** Further properties: the answer function                            *)
(* ===================================================================== *)

(** X16.  What [get_ai_response] can return.  When the knowledge store
    path exists, an answer is one of the four greetings, a space, and the
    text the language model returned, verbatim, and its confidence is 0.95
    whatever was asked, retrieved or generated.  When the path does not
    exist the answer is the knowledge-base error with confidence 0.0.  So
    the confidence is 0.0 exactly when the store is missing. *)
Theorem get_ai_response_answers cfg env text ai :
  outcome (get_ai_response cfg env text) = Ok ai →
  (path_exists env = true →
     ai_confidence ai = 95 # 100
     ∧ ∃ greeting answer,
         In greeting ["Hello!"; "Hi there!"; "Hey!"; "Greetings!"]
         ∧ rag_invoke env = Ok answer
         ∧ ai_response ai = greeting +:+ " " +:+ answer)
  ∧ (path_exists env = false →
       ai = {| ai_response := KNOWLEDGE_BASE_NOT_FOUND; ai_confidence := 0 # 1 |})
  ∧ (ai_confidence ai = 0 # 1 ↔ path_exists env = false).
Proof.
  intros H.
  destruct (get_ai_response_values cfg env text ai H) as [[Hp ->]|[Hp [Hc Hg]]];
    rewrite Hp.
  - split; [discriminate | split; [reflexivity | split; reflexivity]].
  - split; [intros _; split; [exact Hc | exact Hg]|].
    split; [discriminate|]. rewrite Hc. split; discriminate.
Qed.

Lemma get_ai_response_answers_witness :
  outcome (get_ai_response default_settings env_all_up "how does your automation work?") =
    Ok {| ai_response := "Hey! We build automation systems."; ai_confidence := 95 # 100 |}
  ∧ ∃ greeting answer,
      In greeting ["Hello!"; "Hi there!"; "Hey!"; "Greetings!"]
      ∧ rag_invoke env_all_up = Ok answer
      ∧ "Hey! We build automation systems." = greeting +:+ " " +:+ answer.
Proof.
  split; [reflexivity|].
  destruct (get_ai_response_answers default_settings env_all_up
              "how does your automation work?"
              {| ai_response := "Hey! We build automation systems.";
                 ai_confidence := 95 # 100 |} eq_refl) as [H _].
  destruct (H eq_refl) as [_ Hg]. exact Hg.
Defined.

(** X17.  The order and the failures of [get_ai_response].  Its library
    calls are, in this order and with nothing in between: construct the
    embedding model, test the store path, load the vector store, invoke the
    chain, draw a greeting; it stops at the first call that raises and
    after the path test when the path is missing.  It constructs the
    embedding model on every call (nothing is kept between calls), and it
    raises exactly when the embedding model, or, the path existing, the
    vector store load or the chain raises, with that exception. *)
Theorem get_ai_response_call_order cfg env text :
  let all_calls :=
    [EvLoadEmbeddings (HUGGINGFACE_EMBEDDING_MODEL cfg);
     EvPathExists (FAISS_DB_PATH cfg);
     EvFaissLoad (FAISS_DB_PATH cfg);
     EvRagInvoke (OLLAMA_MODEL cfg) text;
     EvRandomChoice] in
  let call := get_ai_response cfg env text in
  events call `prefix_of` all_calls
  ∧ head (events call) = Some (EvLoadEmbeddings (HUGGINGFACE_EMBEDDING_MODEL cfg))
  ∧ (events call = all_calls ↔ path_exists env = true ∧ ∃ ai, outcome call = Ok ai)
  ∧ (∀ e, outcome call = Raise e ↔
       embeddings_init env = Raise e
       ∨ (embeddings_init env = Ok tt ∧ path_exists env = true ∧
          (faiss_load env = Raise e
           ∨ (faiss_load env = Ok tt ∧ rag_invoke env = Raise e)))).
Proof.
  intros all_calls call. unfold call, all_calls, get_ai_response, random_choice.
  destruct (embeddings_init env) as [[]|e1];
    [destruct (path_exists env);
       [destruct (faiss_load env) as [[]|e2];
          [destruct (rag_invoke env) as [answer|e3]|]|]|];
    cbn [bind external ret events outcome fst snd negb app].
  - split; [reflexivity | split; [reflexivity | split]].
    + split; [intros _; split; [reflexivity | eexists; reflexivity] | reflexivity].
    + intros e. split; [discriminate|].
      intros [H|[_ [_ [H|[_ H]]]]]; discriminate.
  - split; [eexists; reflexivity | split; [reflexivity | split]].
    + split; [discriminate | intros [_ [ai H]]; discriminate].
    + intros e. split; [intros [= ->]; auto 6|].
      intros [H|[_ [_ [H|[_ H]]]]]; congruence.
  - split; [eexists; reflexivity | split; [reflexivity | split]].
    + split; [discriminate | intros [_ [ai H]]; discriminate].
    + intros e. split; [intros [= ->]; auto 6|].
      intros [H|[_ [_ [H|[H _]]]]]; congruence.
  - split; [eexists; reflexivity | split; [reflexivity | split]].
    + split; [discriminate | intros [H _]; discriminate].
    + intros e. split; [discriminate|].
      intros [H|[_ [H _]]]; discriminate.
  - split; [eexists; reflexivity | split; [reflexivity | split]].
    + split; [discriminate | intros [_ [ai H]]; discriminate].
    + intros e. split; [intros [= ->]; auto|].
      intros [H|[H _]]; congruence.
Qed.

(* ===================================================================== *)
(** ** Further properties: the notification sender                        *)
(* ===================================================================== *)

(** X18.  The SMTP conversation.  The relay is contacted in the order
    connect, STARTTLS, login, sendmail, quit, skipping what follows a step
    that raised except the quit, which is issued whenever the connection
    was made.  The message is handed over only after the connection, the
    TLS upgrade and the login all succeeded, and the delivery returns
    exactly when all five steps did. *)
Theorem smtp_conversation cfg env sender_email receiver_email subject body :
  let steps := events (smtp_delivery cfg env sender_email receiver_email subject body) in
  steps `sublist_of`
    [EvSmtpConnect (default "" (SMTP_SERVER cfg)) (SMTP_PORT cfg);
     EvSmtpStartTls;
     EvSmtpLogin (default "" (SMTP_USERNAME cfg)) (default "" (SMTP_PASSWORD cfg));
     EvSmtpSendmail sender_email receiver_email subject body;
     EvSmtpQuit]
  ∧ head steps = Some (EvSmtpConnect (default "" (SMTP_SERVER cfg)) (SMTP_PORT cfg))
  ∧ (mails_sent steps = [EvSmtpSendmail sender_email receiver_email subject body] ↔
       smtp_connect env = Ok tt ∧ smtp_starttls env = Ok tt ∧ smtp_login env = Ok tt)
  ∧ (mails_sent steps = [] ∨
     mails_sent steps = [EvSmtpSendmail sender_email receiver_email subject body])
  ∧ (In EvSmtpQuit steps ↔ smtp_connect env = Ok tt)
  ∧ (outcome (smtp_delivery cfg env sender_email receiver_email subject body) = Ok tt ↔
       smtp_connect env = Ok tt ∧ smtp_starttls env = Ok tt ∧ smtp_login env = Ok tt
       ∧ smtp_sendmail env = Ok tt ∧ smtp_quit env = Ok tt).
Proof.
  intros steps. unfold steps, smtp_delivery, with_block.
  smtp_cases env;
    cbn [bind external ret events outcome fst snd app mails_sent List.filter
         is_sendmail head].
  all: split;
    [ repeat first [apply sublist_nil | apply sublist_skip | apply sublist_cons]
    | split; [reflexivity|] ].
  all: split; [split; [try discriminate; auto | intros (H1 & H2 & H3); congruence]|].
  all: split; [auto|].
  all: split;
    [ split; [intros Hin; try reflexivity;
              repeat (destruct Hin as [Hin|Hin]; try discriminate Hin);
              try contradiction
             | intros Hc; try discriminate Hc; cbn; auto 8 ]
    | split; [try discriminate; auto 6
             | intros (H1 & H2 & H3 & H4 & H5); congruence ] ].
Qed.

Lemma lead_delivery_prints_nothing cfg env lead_data history :
  printed (events (lead_delivery cfg env lead_data history)) = [].
Proof.
  unfold lead_delivery, smtp_delivery, with_block.
  smtp_cases env; reflexivity.
Qed.

(** X19.  The log of one call.  [send_lead_email] prints at most one line:
    that the settings are incomplete, when one of the server, the user name,
    the password and the receiver is missing or empty; nothing, when the
    settings are complete and the message cannot be assembled, in which case
    the exception of [MIMEText] leaves the function; that the mail was sent,
    when the message was assembled and the delivery returned; otherwise that
    it failed, followed by the text of the exception.  The function returns
    in every case but the second.  With incomplete settings the relay is not
    contacted. *)
Theorem send_lead_email_log cfg env lead_data history :
  printed (events (send_lead_email cfg env lead_data history)) =
  (if smtp_configured cfg then
     match mime_text env (lead_body lead_data history) with
     | Raise _ => []
     | Ok _ =>
         [ match outcome (lead_delivery cfg env lead_data history) with
           | Ok _ => "Lead email sent successfully!"
           | Raise e => "Failed to send email: " +:+ exn_str e
           end ]
     end
   else ["SMTP credentials are not fully configured. Email will not be sent."])
  ∧ outcome (send_lead_email cfg env lead_data history) =
    (if smtp_configured cfg then mime_text env (lead_body lead_data history) else Ok tt)
  ∧ (smtp_configured cfg = true ↔
       (∃ server, SMTP_SERVER cfg = Some server ∧ server ≠ "")
       ∧ (∃ username, SMTP_USERNAME cfg = Some username ∧ username ≠ "")
       ∧ (∃ password, SMTP_PASSWORD cfg = Some password ∧ password ≠ "")
       ∧ (∃ receiver, RECEIVER_EMAIL cfg = Some receiver ∧ receiver ≠ ""))
  ∧ (smtp_configured cfg = false →
       events (send_lead_email cfg env lead_data history) =
       [EvSendLeadEmail lead_data history;
        EvPrint "SMTP credentials are not fully configured. Email will not be sent."]).
Proof.
  split; [|split; [apply send_lead_email_outcome | split]].
  - unfold send_lead_email, assemble_message.
    pose proof (lead_delivery_prints_nothing cfg env lead_data history) as Hp.
    destruct (smtp_configured cfg); [|reflexivity].
    destruct (mime_text env (lead_body lead_data history)) as [[]|?]; [|reflexivity].
    destruct (lead_delivery cfg env lead_data history) as [t [[]|e]];
      cbn [bind external ret events outcome fst snd app try_except negb print] in *;
      unfold printed in *; cbn [flat_map app];
      rewrite ?app_nil_r, ?flat_map_app, Hp; reflexivity.
  - unfold smtp_configured, all. cbn [forallb id].
    assert (Ht : ∀ o, truthy o = true ↔ ∃ s, o = Some s ∧ s ≠ "").
    { intros [[|c s]|]; cbn; split; try discriminate; eauto.
      - intros [s [[= <-] Hs]]. contradiction.
      - intros [s [Hs _]]. discriminate. }
    rewrite !andb_true_iff, !Ht. tauto.
  - apply send_lead_email_unconfigured.
Qed.

Lemma lead_email_body_lines lead_data initial_message timestamp :
  let body := lead_email_body lead_data initial_message timestamp in
  str_contains ("Name: " +:+ default "N/A" (lead_data !! "name") +:+ NL) body = true
  ∧ str_contains ("Email: " +:+ default "N/A" (lead_data !! "email") +:+ NL) body = true
  ∧ str_contains ("Initial Intent: " +:+ DQUOTE +:+ initial_message +:+ DQUOTE +:+ NL)
      body = true
  ∧ str_contains ("Time of Capture: " +:+ timestamp +:+ NL) body = true.
Proof.
  intros body. unfold body, lead_email_body.
  set (name := default "N/A" (lead_data !! "name")).
  set (email := default "N/A" (lead_data !! "email")).
  repeat split; apply str_contains_spec.
  - exists (NL +:+ "    A new lead has been captured from your AI assistant!" +:+ NL +:+
            "    " +:+ NL +:+ "    ").
    eexists. rewrite !string_app_assoc. reflexivity.
  - exists (NL +:+ "    A new lead has been captured from your AI assistant!" +:+ NL +:+
            "    " +:+ NL +:+ "    Name: " +:+ name +:+ NL +:+ "    ").
    eexists. rewrite !string_app_assoc. reflexivity.
  - exists (NL +:+ "    A new lead has been captured from your AI assistant!" +:+ NL +:+
            "    " +:+ NL +:+ "    Name: " +:+ name +:+ NL +:+
            "    Email: " +:+ email +:+ NL +:+ "    " +:+ NL +:+ "    ---" +:+ NL +:+
            "    Lead Details:" +:+ NL +:+ "    ").
    eexists. rewrite !string_app_assoc. reflexivity.
  - exists (NL +:+ "    A new lead has been captured from your AI assistant!" +:+ NL +:+
            "    " +:+ NL +:+ "    Name: " +:+ name +:+ NL +:+
            "    Email: " +:+ email +:+ NL +:+ "    " +:+ NL +:+ "    ---" +:+ NL +:+
            "    Lead Details:" +:+ NL +:+
            "    Initial Intent: " +:+ DQUOTE +:+ initial_message +:+ DQUOTE +:+ NL +:+
            "    ").
    eexists. rewrite !string_app_assoc. reflexivity.
Qed.

Lemma send_lead_email_mails cfg env lead_data history :
  smtp_configured cfg = true →
  mime_text env (lead_body lead_data history) = Ok tt →
  smtp_connect env = Ok tt → smtp_starttls env = Ok tt → smtp_login env = Ok tt →
  mails_sent (events (send_lead_email cfg env lead_data history)) =
  [EvSmtpSendmail (default "" (SMTP_USERNAME cfg)) (default "" (RECEIVER_EMAIL cfg))
     "New OveloAI Lead Captured" (lead_body lead_data history)].
Proof.
  intros Hc Hm H1 H2 H3.
  unfold send_lead_email, assemble_message, lead_delivery, smtp_delivery, with_block.
  rewrite Hc, Hm, H1, H2, H3.
  destruct (smtp_sendmail env) as [[]|?]; destruct (smtp_quit env) as [[]|?];
    reflexivity.
Qed.

(** X20.  What the lead mail says.  When the accepted email step runs with
    complete SMTP settings, a text of the message that [MIMEText] can encode
    and a relay that accepts the connection, the TLS upgrade and the login,
    exactly one message is handed to the relay, from the configured user
    name to the configured receiver.  Its text names the email just typed
    and the name captured before ("N/A" if none), and quotes as initial
    intent and time of capture the text and the timestamp of the first entry
    of the session's history, which is the first message the session ever
    received and not the moment of capture.  When [MIMEText] cannot encode
    the text, nothing is handed to the relay. *)
Theorem lead_mail_content str_lower cfg env sessions request_data session first rest :
  let sid := resolve_session_id env request_data in
  let text := message request_data in
  let call := chat_endpoint str_lower cfg env sessions request_data in
  let body := lead_email_body (<["email" := text]> (user_data session))
                              (content first) (timestamp first) in
  sessions !! sid = Some session →
  awaiting_action session = Some "get_email" →
  looks_like_email text = true →
  message_history session = first :: rest →
  smtp_configured cfg = true →
  (mime_text env body = Ok tt →
   smtp_connect env = Ok tt → smtp_starttls env = Ok tt → smtp_login env = Ok tt →
   mails_sent (events call.2) =
     [EvSmtpSendmail (default "" (SMTP_USERNAME cfg)) (default "" (RECEIVER_EMAIL cfg))
        "New OveloAI Lead Captured" body])
  ∧ (∀ e, mime_text env body = Raise e → mails_sent (events call.2) = [])
  ∧ str_contains ("Email: " +:+ text +:+ NL) body = true
  ∧ str_contains ("Name: " +:+ default "N/A" (user_data session !! "name") +:+ NL)
      body = true
  ∧ str_contains ("Initial Intent: " +:+ DQUOTE +:+ content first +:+ DQUOTE +:+ NL)
      body = true
  ∧ str_contains ("Time of Capture: " +:+ timestamp first +:+ NL) body = true.
Proof.
  intros sid text call body Hs Ha Hv Hh Hc.
  destruct (lead_email_body_lines (<["email" := text]> (user_data session))
              (content first) (timestamp first)) as (Ln & Le & Li & Lt).
  rewrite lookup_insert_eq in Le. rewrite lookup_insert_ne in Ln by discriminate.
  set (lead := <["email" := text]> (user_data session)).
  set (history := message_history session ++ [user_message env text]).
  assert (Hbody : lead_body lead history = body).
  { unfold lead_body, history. rewrite Hh. reflexivity. }
  assert (Hev : events call.2 = events (send_lead_email cfg env lead history)).
  { unfold call.
    rewrite (chat_endpoint_email_valid str_lower cfg env sessions request_data session
               Hs Ha Hv).
    fold sid text lead history.
    now destruct (outcome (send_lead_email cfg env lead history)). }
  split; [|split; [|repeat split; assumption]].
  - intros Hm H1 H2 H3. rewrite Hev, <- Hbody.
    apply send_lead_email_mails; [exact Hc | now rewrite Hbody | assumption..].
  - intros e Hm. rewrite Hev.
    rewrite (send_lead_email_assembly_raises cfg env lead history e Hc);
      [reflexivity | now rewrite Hbody].
Qed.

Lemma lead_mail_content_witness :
  smtp_configured settings_with_smtp = true
  ∧ mails_sent
      (events (chat_endpoint ascii_lower settings_with_smtp env_all_up
                 {[ "s1" := session_awaiting_email ]}
                 (request "ada@example.com" (Some "s1"))).2) =
    [EvSmtpSendmail "bot@example.com" "sales@example.com" "New OveloAI Lead Captured"
       (lead_email_body {[ "name" := "Ada"; "email" := "ada@example.com" ]}
          "what does it cost?" "2025-01-01T09:59:00.000100")].
Proof.
  split; [reflexivity|].
  destruct (lead_mail_content ascii_lower settings_with_smtp env_all_up
              {[ "s1" := session_awaiting_email ]}
              (request "ada@example.com" (Some "s1")) session_awaiting_email
              {| role := "user"; content := "what does it cost?";
                 timestamp := "2025-01-01T09:59:00.000100" |}
              (tail (message_history session_awaiting_email)))
    as [H _]; [reflexivity..|].
  rewrite H; reflexivity.
Defined.

(* ===================================================================== *)
(** ** Further properties: the indexing script                            *)
(* ===================================================================== *)

Lemma ix_calls_app t1 t2 : ix_calls (t1 ++ t2) = ix_calls t1 ++ ix_calls t2.
Proof. unfold ix_calls. apply List.filter_app. Qed.

Lemma ix_printed_app t1 t2 : ix_printed (t1 ++ t2) = ix_printed t1 ++ ix_printed t2.
Proof. unfold ix_printed. apply flat_map_app. Qed.

(** One turn of the loop of [load_documents]: the file is tried once; the
    turn raises only when the [print] of the handler does. *)
Lemma load_file_turn ienv file_path :
  let turn :=
    ix_try
      (ix_bind (ix_external (IxLoadFile file_path) (loader_load ienv file_path))
         (λ _, ix_print ienv (loaded_line file_path)))
      (λ e, ix_print ienv (failed_line file_path e)) in
  ix_calls turn.1 = [IxLoadFile file_path]
  ∧ (∀ e, turn.2 = Raise e → ∃ e', stdout_write ienv (failed_line file_path e') = Raise e)
  ∧ (stdout_takes_all ienv → turn.2 = Ok tt ∧ length (ix_printed turn.1) = 1).
Proof.
  intros turn. unfold turn, ix_try, ix_bind, ix_external, ix_print.
  destruct (loader_load ienv file_path) as [docs|e0].
  - destruct (stdout_write ienv (loaded_line file_path)) as [[]|e1] eqn:H1; cbn.
    + split; [reflexivity | split; [discriminate|]]. intros _. split; reflexivity.
    + split; [reflexivity | split].
      * intros e He. exists e1. exact He.
      * intros Hall. rewrite Hall in H1. discriminate.
  - cbn. split; [reflexivity | split].
    + intros e He. exists e0. exact He.
    + intros Hall. rewrite Hall. split; reflexivity.
Qed.

Lemma load_files_spec ienv txt_files documents :
  let res := load_files ienv txt_files documents in
  (∀ docs, res.2 = Ok docs →
     docs = documents ++ readable_documents ienv txt_files
     ∧ ix_calls res.1 = map IxLoadFile txt_files)
  ∧ (∀ e, res.2 = Raise e →
       ∃ file_path e', In file_path txt_files
                       ∧ stdout_write ienv (failed_line file_path e') = Raise e)
  ∧ ix_calls res.1 `prefix_of` map IxLoadFile txt_files
  ∧ (stdout_takes_all ienv →
       res.2 = Ok (documents ++ readable_documents ienv txt_files)
       ∧ ix_calls res.1 = map IxLoadFile txt_files
       ∧ length (ix_printed res.1) = length txt_files).
Proof.
  revert documents. induction txt_files as [|file_path rest IH]; intros documents res.
  - unfold res. cbn. rewrite app_nil_r.
    split; [now intros docs [= <-] | split; [discriminate | split; [reflexivity|]]].
    intros _. repeat split.
  - unfold res. cbn [load_files readable_documents flat_map map length].
    destruct (load_file_turn ienv file_path) as (Hc & Hraise & Hall).
    cbn zeta in Hc, Hraise, Hall.
    set (extended := match loader_load ienv file_path with
                     | Ok docs => documents ++ docs
                     | Raise _ => documents
                     end).
    assert (Hext : ∀ tail, extended ++ tail =
                           documents ++ match loader_load ienv file_path with
                                        | Ok docs => docs
                                        | Raise _ => []
                                        end ++ tail).
    { intros tail. unfold extended. destruct (loader_load ienv file_path).
      - now rewrite <- app_assoc.
      - reflexivity. }
    specialize (IH extended). cbn zeta in IH.
    destruct IH as (IHok & IHraise & IHpre & IHall).
    destruct (ix_try _ _) as [t [[]|e0]]; cbn [fst snd ix_bind] in *.
    + destruct (load_files ienv rest extended) as [t' r']. cbn [fst snd] in *.
      rewrite ix_calls_app, ix_printed_app, length_app, Hc.
      split; [|split; [|split]].
      * intros docs Hd. destruct (IHok docs Hd) as [-> Hcs].
        split; [apply Hext | now rewrite Hcs].
      * intros e He. destruct (IHraise e He) as (p & e' & Hin & Hw).
        exists p, e'. split; [now right | exact Hw].
      * cbn [app]. now apply prefix_cons.
      * intros Hs. destruct (IHall Hs) as (Hr & Hcalls & Hlen).
        destruct (Hall Hs) as [_ Hone].
        rewrite Hr, Hcalls, Hone, Hlen, Hext. repeat split.
    + rewrite Hc. split; [discriminate | split; [|split]].
      * intros e [= <-]. destruct (Hraise e0 eq_refl) as [e' He'].
        exists file_path, e'. split; [now left | exact He'].
      * apply prefix_cons, prefix_nil.
      * intros Hs. destruct (Hall Hs) as [H _]. discriminate.
Qed.

Lemma load_documents_spec ienv :
  let res := load_documents ienv in
  (∀ documents, res.2 = Ok documents →
     documents = readable_documents ienv (glob_txt ienv)
     ∧ ix_calls res.1 = IxGlob "knowledge_base/*.txt" :: map IxLoadFile (glob_txt ienv))
  ∧ (∀ e, res.2 = Raise e →
       ∃ file_path e', In file_path (glob_txt ienv)
                       ∧ stdout_write ienv (failed_line file_path e') = Raise e)
  ∧ ix_calls res.1 `prefix_of`
      IxGlob "knowledge_base/*.txt" :: map IxLoadFile (glob_txt ienv)
  ∧ (stdout_takes_all ienv →
       res.2 = Ok (readable_documents ienv (glob_txt ienv))
       ∧ ix_calls res.1 = IxGlob "knowledge_base/*.txt" :: map IxLoadFile (glob_txt ienv)
       ∧ length (ix_printed res.1) = length (glob_txt ienv)).
Proof.
  intros res. unfold res, load_documents. cbn [ix_bind ix_external].
  destruct (load_files_spec ienv (glob_txt ienv) []) as (Hok & Hraise & Hpre & Hall).
  cbn zeta in Hok, Hraise, Hpre, Hall.
  destruct (load_files ienv (glob_txt ienv) []) as [t r]. cbn [fst snd app] in *.
  change (ix_calls (IxGlob (KB_DOCS_PATH +:+ "*.txt") :: t))
    with (IxGlob "knowledge_base/*.txt" :: ix_calls t).
  split; [|split; [exact Hraise | split]].
  - intros documents Hd. destruct (Hok documents Hd) as [-> Hc]. now rewrite Hc.
  - now apply prefix_cons.
  - intros Hs. destruct (Hall Hs) as (Hr & Hc & Hl).
    split; [exact Hr | split; [now rewrite Hc | exact Hl]].
Qed.

(** X21.  [load_documents] survives unreadable files.  Whenever it returns,
    it has tried every file once, in the order [glob] listed the files, and
    returns the documents of the files that could be read, in that order,
    skipping each file whose loading raised, and keeping the documents of a
    file also when the line that reports it could not be printed.
    It raises only when the [print] of the handler (line 53) raises, and
    then raises that exception.  On a standard output that takes every line
    it never raises, tries every file and prints one line per file. *)
Theorem load_documents_skips_unreadable ienv :
  let res := load_documents ienv in
  (∀ documents, res.2 = Ok documents →
     documents = readable_documents ienv (glob_txt ienv)
     ∧ ix_calls res.1 = IxGlob "knowledge_base/*.txt" :: map IxLoadFile (glob_txt ienv))
  ∧ (∀ e, res.2 = Raise e →
       ∃ file_path e', In file_path (glob_txt ienv)
                       ∧ stdout_write ienv
                           ("❌ Failed to load " +:+ file_path +:+ ": " +:+ exn_str e') =
                         Raise e)
  ∧ ix_calls res.1 `prefix_of`
      IxGlob "knowledge_base/*.txt" :: map IxLoadFile (glob_txt ienv)
  ∧ (stdout_takes_all ienv →
       res.2 = Ok (readable_documents ienv (glob_txt ienv))
       ∧ ix_calls res.1 = IxGlob "knowledge_base/*.txt" :: map IxLoadFile (glob_txt ienv)
       ∧ length (ix_printed res.1) = length (glob_txt ienv))
  ∧ (∀ file_path, In file_path (glob_txt ienv) →
       ∀ docs, loader_load ienv file_path = Ok docs →
       ∀ doc, In doc docs → In doc (readable_documents ienv (glob_txt ienv))).
Proof.
  intros res.
  destruct (load_documents_spec ienv) as (Hok & Hraise & Hpre & Hall).
  split; [exact Hok | split; [exact Hraise | split; [exact Hpre | split; [exact Hall|]]]].
  intros file_path Hin docs Hd doc Hdoc. unfold readable_documents.
  apply in_flat_map. exists file_path. split; [exact Hin|]. now rewrite Hd.
Qed.

Lemma load_documents_skips_unreadable_witness :
  (load_documents index_env_example).2 =
    Ok [ {| page_content := "We build automation systems.";
            doc_source := "knowledge_base/services.txt" |} ]
  ∧ load_documents index_env_ascii_stdout =
    ([IxGlob "knowledge_base/*.txt";
      IxLoadFile "knowledge_base/services.txt";
      IxPrint "✅ Loaded: knowledge_base/services.txt";
      IxPrint "❌ Failed to load knowledge_base/services.txt: 'ascii' codec can't encode character '\u2705' in position 0: ordinal not in range(128)"],
     Raise (Exception "'ascii' codec can't encode character '\u274c' in position 0: ordinal not in range(128)")).
Proof.
  split.
  - destruct (load_documents_skips_unreadable index_env_example) as (_ & _ & _ & H & _).
    destruct H as [H _]; [intros line; reflexivity|].
    rewrite H. reflexivity.
  - reflexivity.
Defined.

Lemma initialize_knowledge_base_unfold cfg ienv self :
  let documents := readable_documents ienv (glob_txt ienv) in
  let chunks := split_documents ienv documents in
  let store := {| indexed := chunks |} in
  let t0 := IxPrint INITIALIZING_LINE :: (load_documents ienv).1 in
  initialize_knowledge_base cfg ienv self =
  match stdout_write ienv INITIALIZING_LINE with
  | Raise e => (self, ([IxPrint INITIALIZING_LINE], Raise e))
  | Ok _ =>
      match (load_documents ienv).2 with
      | Raise e => (self, (t0, Raise e))
      | Ok _ =>
          match documents with
          | [] =>
              (self,
               (t0 ++ [IxPrint "❌ No documents found!"],
                match stdout_write ienv "❌ No documents found!" with
                | Ok _ => Raise NO_DOCUMENTS
                | Raise e => Raise e
                end))
          | _ :: _ =>
              match stdout_write ienv (processed_line chunks) with
              | Raise e => (self, (t0 ++ [IxPrint (processed_line chunks)], Raise e))
              | Ok _ =>
                  let t1 := t0 ++ [IxPrint (processed_line chunks); IxFromDocuments chunks] in
                  match from_documents ienv chunks with
                  | Raise e => (self, (t1, Raise e))
                  | Ok _ =>
                      let t2 := t1 ++ [IxSaveLocal (FAISS_DB_PATH cfg)] in
                      match save_local ienv with
                      | Raise e => ({| vector_store := Some store |}, (t2, Raise e))
                      | Ok _ =>
                          ({| vector_store := Some store |},
                           (t2 ++ [IxPrint (saved_line cfg)],
                            match stdout_write ienv (saved_line cfg) with
                            | Ok _ => Ok store
                            | Raise e => Raise e
                            end))
                      end
                  end
              end
          end
      end
  end.
Proof.
  intros documents chunks store t0. unfold initialize_knowledge_base, t0, store, chunks.
  destruct (load_documents_spec ienv) as (Hok & _).
  cbn zeta in Hok. fold documents in Hok.
  unfold ix_print, ix_bind at 1.
  destruct (stdout_write ienv INITIALIZING_LINE) as [[]|e0]; [|reflexivity].
  destruct (load_documents ienv) as [tl [docs|e]]; cbn [fst snd app] in *; [|reflexivity].
  destruct (Hok docs eq_refl) as [Hd _]. rewrite Hd.
  destruct documents as [|d ds]; cbn [ix_bind ix_raise ix_external ix_ret app].
  - destruct (stdout_write ienv "❌ No documents found!") as [[]|e1]; reflexivity.
  - set (cs := split_documents ienv (d :: ds)).
    destruct (stdout_write ienv (processed_line cs)) as [[]|e1]; [|reflexivity].
    destruct (from_documents ienv cs) as [[]|e2]; [|reflexivity].
    destruct (save_local ienv) as [[]|e3]; cbn [app].
    + destruct (stdout_write ienv (saved_line cfg)) as [[]|e4];
        rewrite <- ?app_assoc; reflexivity.
    + rewrite <- ?app_assoc. reflexivity.
Qed.

(** X22.  [initialize_knowledge_base] builds nothing from nothing.  When no
    document could be read (no file, or only unreadable or empty ones) it
    raises, leaves the instance as it was, and neither builds nor saves an
    index.  Whenever it returns a store, the store is built from the chunks
    of the readable documents, was saved to the configured path and is the
    instance's store.  Its first statement prints a line that starts with
    an emoji: when the standard output cannot take that line, the call
    raises there and does nothing else.  On a standard output that takes
    every line: with no readable document the error is the "No knowledge
    base documents found" one, raised after every file was tried; when
    building the index raises, the call raises that exception, the instance
    is unchanged and nothing is saved; when the index is built but saving
    raises, the call raises and yet the instance keeps the unsaved store;
    and otherwise the call returns the store. *)
Theorem initialize_knowledge_base_outcomes cfg ienv self :
  let documents := readable_documents ienv (glob_txt ienv) in
  let chunks := split_documents ienv documents in
  let after := (initialize_knowledge_base cfg ienv self).1 in
  let res := (initialize_knowledge_base cfg ienv self).2 in
  (∀ store, res.2 = Ok store →
     documents ≠ [] ∧ store = {| indexed := chunks |}
     ∧ vector_store after = Some store
     ∧ ix_calls res.1 =
         IxGlob "knowledge_base/*.txt" :: map IxLoadFile (glob_txt ienv) ++
         [IxFromDocuments chunks; IxSaveLocal (FAISS_DB_PATH cfg)])
  ∧ (documents = [] →
       (∃ e, res.2 = Raise e) ∧ after = self
       ∧ ix_calls res.1 `prefix_of`
           IxGlob "knowledge_base/*.txt" :: map IxLoadFile (glob_txt ienv))
  ∧ (∀ e, stdout_write ienv "🔄 Initializing OveloAI Knowledge Base with FAISS..." = Raise e →
       after = self
       ∧ res = ([IxPrint "🔄 Initializing OveloAI Knowledge Base with FAISS..."], Raise e))
  ∧ (stdout_takes_all ienv →
       (documents = [] →
          res.2 = Raise NO_DOCUMENTS
          ∧ ix_calls res.1 =
              IxGlob "knowledge_base/*.txt" :: map IxLoadFile (glob_txt ienv))
       ∧ (∀ e, documents ≠ [] → from_documents ienv chunks = Raise e →
            res.2 = Raise e ∧ after = self
            ∧ ¬ In (IxSaveLocal (FAISS_DB_PATH cfg)) res.1)
       ∧ (∀ e, documents ≠ [] → from_documents ienv chunks = Ok tt →
            save_local ienv = Raise e →
            res.2 = Raise e ∧ vector_store after = Some {| indexed := chunks |})
       ∧ (documents ≠ [] → from_documents ienv chunks = Ok tt →
            save_local ienv = Ok tt →
            res.2 = Ok {| indexed := chunks |})).
Proof.
  intros documents chunks after res. unfold after, res.
  rewrite initialize_knowledge_base_unfold. fold documents. fold chunks.
  destruct (load_documents_spec ienv) as (Hok & _ & Hpre & Hall).
  cbn zeta in Hok, Hpre, Hall.
  set (files := IxGlob "knowledge_base/*.txt" :: map IxLoadFile (glob_txt ienv)) in *.
  assert (Hcalls : ∀ t, ix_calls ((IxPrint INITIALIZING_LINE :: (load_documents ienv).1) ++ t) =
                        ix_calls (load_documents ienv).1 ++ ix_calls t).
  { intros t. rewrite ix_calls_app. reflexivity. }
  assert (Hcalls0 : ix_calls (IxPrint INITIALIZING_LINE :: (load_documents ienv).1) =
                    ix_calls (load_documents ienv).1) by reflexivity.
  assert (Hnotin : ∀ t, ¬ In (IxSaveLocal (FAISS_DB_PATH cfg)) (ix_calls t) →
                        ¬ In (IxSaveLocal (FAISS_DB_PATH cfg)) t).
  { intros t Hn Hin. apply Hn. unfold ix_calls. apply filter_In. now split. }
  assert (Hfiles : ¬ In (IxSaveLocal (FAISS_DB_PATH cfg)) files).
  { intros [Hin|Hin]; [discriminate|].
    apply in_map_iff in Hin as [p [Hp _]]. discriminate. }
  split; [|split; [|split]].
  - (* a returned store *)
    intros store.
    destruct (stdout_write ienv INITIALIZING_LINE) as [[]|e0]; [|discriminate].
    destruct ((load_documents ienv).2) as [docs|e] eqn:Hload; [|discriminate].
    destruct (Hok docs eq_refl) as [_ Hc].
    destruct documents as [|d ds] eqn:Hdocs.
    { cbn [fst snd]. destruct (stdout_write ienv _); discriminate. }
    destruct (stdout_write ienv (processed_line chunks)) as [[]|e1]; [|discriminate].
    destruct (from_documents ienv chunks) as [[]|e2]; [|discriminate].
    destruct (save_local ienv) as [[]|e3]; [|discriminate].
    cbn [fst snd].
    destruct (stdout_write ienv (saved_line cfg)) as [[]|e4]; [|discriminate].
    intros [= <-]. split; [discriminate | split; [reflexivity | split; [reflexivity|]]].
    rewrite <- !app_assoc, Hcalls, Hc. reflexivity.
  - (* nothing to index *)
    intros Hdocs. rewrite Hdocs.
    destruct (stdout_write ienv INITIALIZING_LINE) as [[]|e0]; cbn [fst snd].
    + destruct ((load_documents ienv).2) as [docs|e] eqn:Hload; cbn [fst snd].
      * split; [destruct (stdout_write ienv _); eauto | split; [reflexivity|]].
        rewrite Hcalls. cbn. now rewrite app_nil_r.
      * split; [eauto | split; [reflexivity|]]. now rewrite Hcalls0.
    + split; [eauto | split; [reflexivity | apply prefix_nil]].
  - (* the first line *)
    intros e He. change INITIALIZING_LINE
      with "🔄 Initializing OveloAI Knowledge Base with FAISS...".
    rewrite He. split; reflexivity.
  - (* a standard output that takes every line *)
    intros Hs. destruct (Hall Hs) as (Hr & Hc & _).
    rewrite !Hs, Hr. split; [|split; [|split]].
    + intros Hdocs. rewrite Hdocs. cbn [fst snd]. split; [reflexivity|].
      rewrite Hcalls, Hc. cbn. now rewrite app_nil_r.
    + intros e Hne Hf. destruct documents as [|d ds]; [contradiction|].
      rewrite Hf. cbn [fst snd]. split; [reflexivity | split; [reflexivity|]].
      apply Hnotin. rewrite Hcalls, Hc.
      intros Hin. apply in_app_or in Hin as [Hin|Hin]; [now apply Hfiles|].
      cbn in Hin. destruct Hin as [Hin|[]]. discriminate.
    + intros e Hne Hf Hsv. destruct documents as [|d ds]; [contradiction|].
      rewrite Hf, Hsv. split; reflexivity.
    + intros Hne Hf Hsv. destruct documents as [|d ds]; [contradiction|].
      rewrite Hf, Hsv. reflexivity.
Qed.

Lemma initialize_knowledge_base_outcomes_witness :
  readable_documents index_env_empty (glob_txt index_env_empty) = []
  ∧ (initialize_knowledge_base default_settings index_env_empty
       {| vector_store := None |}).2.2 =
    Raise (Exception "No knowledge base documents found. Cannot build FAISS index.")
  ∧ (initialize_knowledge_base default_settings index_env_ascii_stdout
       {| vector_store := None |}).2 =
    ([IxPrint "🔄 Initializing OveloAI Knowledge Base with FAISS..."],
     Raise (Exception "'ascii' codec can't encode character '\U0001f504' in position 0: ordinal not in range(128)")).
Proof.
  split; [reflexivity | split].
  - destruct (initialize_knowledge_base_outcomes default_settings index_env_empty
                {| vector_store := None |}) as (_ & _ & _ & H).
    destruct H as [H _]; [intros line; reflexivity|].
    destruct (H eq_refl) as [Hr _]. exact Hr.
  - destruct (initialize_knowledge_base_outcomes default_settings index_env_ascii_stdout
                {| vector_store := None |}) as (_ & _ & H & _).
    apply H. reflexivity.
Defined.

(** X23.  [query_knowledge] answers [None] for both of its failures.
    Without a vector store it prints that the knowledge base is not
    initialized and searches nothing; with one it searches once and returns
    the results, printing nothing, or, when the search raises, prints the
    error and returns [None].  So [None] means "not initialized" or "search
    failed", while a search that finds nothing returns the empty list.  The
    two lines it prints start with an emoji: the call raises exactly when
    the [print] it reaches raises, with that exception, and so never when
    the search succeeds nor on a standard output that takes every line. *)
Theorem query_knowledge_outcomes ienv self question k :
  let res := query_knowledge ienv self question k in
  (vector_store self = None →
     res = ([IxPrint "❌ Knowledge base not initialized!"],
            match stdout_write ienv "❌ Knowledge base not initialized!" with
            | Ok _ => Ok None
            | Raise e => Raise e
            end))
  ∧ (∀ results, is_Some (vector_store self) →
       similarity_search ienv question k = Ok results →
       res = ([IxSimilaritySearch question k], Ok (Some results)))
  ∧ (∀ e, is_Some (vector_store self) →
       similarity_search ienv question k = Raise e →
       res = ([IxSimilaritySearch question k; IxPrint ("❌ Query error: " +:+ exn_str e)],
              match stdout_write ienv ("❌ Query error: " +:+ exn_str e) with
              | Ok _ => Ok None
              | Raise e' => Raise e'
              end))
  ∧ (∀ results, res.2 = Ok (Some results) ↔
       is_Some (vector_store self) ∧ similarity_search ienv question k = Ok results)
  ∧ (res.2 = Ok None →
       vector_store self = None ∨ ∃ e, similarity_search ienv question k = Raise e)
  ∧ (∀ e, res.2 = Raise e →
       ∃ line, last res.1 = Some (IxPrint line) ∧ stdout_write ienv line = Raise e)
  ∧ (stdout_takes_all ienv →
       (∃ result, res.2 = Ok result)
       ∧ (res.2 = Ok None ↔
            vector_store self = None ∨ ∃ e, similarity_search ienv question k = Raise e))
  ∧ (is_Some (vector_store self) → ix_calls res.1 = [IxSimilaritySearch question k]).
Proof.
  intros res. unfold res, query_knowledge.
  destruct (vector_store self) as [store|];
    [destruct (similarity_search ienv question k) as [results|e]|];
    cbn [ix_bind ix_try ix_external ix_print ix_ret app fst snd].
  - split; [discriminate|]. split; [now intros r _ [= <-]|]. split; [discriminate|].
    split; [|split; [discriminate | split; [discriminate | split; [|reflexivity]]]].
    + intros r. split; [intros [= <-]; eauto | intros [_ [= <-]]; reflexivity].
    + intros _. split; [eauto|]. split; [discriminate | intros [H|[e H]]; discriminate].
  - split; [discriminate|]. split; [discriminate|].
    split; [intros e' _ [= <-]; destruct (stdout_write ienv _) as [[]|?]; reflexivity|].
    destruct (stdout_write ienv ("❌ Query error: " +:+ exn_str e)) as [[]|e1] eqn:Hw;
      cbn [fst snd app].
    + split; [|split; [eauto | split; [discriminate | split; [|reflexivity]]]].
      * intros r. split; [discriminate | intros [_ H]; discriminate].
      * intros _. split; [eauto|]. split; eauto.
    + split; [|split; [discriminate | split; [|split; [|reflexivity]]]].
      * intros r. split; [discriminate | intros [_ H]; discriminate].
      * intros e' [= <-]. eexists. split; [reflexivity | exact Hw].
      * intros Hs. rewrite Hs in Hw. discriminate.
  - split; [intros _; destruct (stdout_write ienv _) as [[]|?]; reflexivity|].
    split; [intros r [x Hx]; discriminate|].
    split; [intros e [x Hx]; discriminate|].
    destruct (stdout_write ienv "❌ Knowledge base not initialized!") as [[]|e1] eqn:Hw;
      cbn [fst snd app].
    + split; [|split; [eauto | split; [discriminate | split]]].
      * intros r. split; [discriminate | intros [[x Hx] _]; discriminate].
      * intros _. split; [eauto|]. split; eauto.
      * intros [x Hx]. discriminate.
    + split; [|split; [discriminate | split; [|split]]].
      * intros r. split; [discriminate | intros [[x Hx] _]; discriminate].
      * intros e' [= <-]. eexists. split; [reflexivity | exact Hw].
      * intros Hs. rewrite Hs in Hw. discriminate.
      * intros [x Hx]. discriminate.
Qed.

Lemma query_knowledge_outcomes_witness :
  query_knowledge index_env_example {| vector_store := None |} "pricing" DEFAULT_K =
    ([IxPrint "❌ Knowledge base not initialized!"], Ok None)
  ∧ query_knowledge index_env_ascii_stdout {| vector_store := None |} "pricing" DEFAULT_K =
    ([IxPrint "❌ Knowledge base not initialized!"],
     Raise (Exception "'ascii' codec can't encode character '\u274c' in position 0: ordinal not in range(128)")).
Proof.
  split.
  - destruct (query_knowledge_outcomes index_env_example {| vector_store := None |}
                "pricing" DEFAULT_K) as [H _].
    rewrite H; reflexivity.
  - destruct (query_knowledge_outcomes index_env_ascii_stdout {| vector_store := None |}
                "pricing" DEFAULT_K) as [H _].
    rewrite H; reflexivity.
Defined.

(** X24.  The directory defeats the guard.  Loading the indexing module
    makes the knowledge store path exist, before and whether or not an index
    is ever written there.  In a file system where the path exists,
    [get_ai_response] never answers with the knowledge-base error: an
    answer it returns is a greeting and the model's text with confidence
    0.95, once the embedding model is constructed it goes on to load the
    vector store, and a failure to load it is raised to the caller. *)
Theorem directory_defeats_guard cfg existing env text :
  FAISS_DB_PATH cfg ∈ module_load cfg existing
  ∧ existing ⊆ module_load cfg existing
  ∧ (path_exists env = bool_decide (FAISS_DB_PATH cfg ∈ module_load cfg existing) →
       (∀ ai, outcome (get_ai_response cfg env text) = Ok ai →
          ai_response ai ≠ KNOWLEDGE_BASE_NOT_FOUND ∧ ai_confidence ai = 95 # 100)
       ∧ (embeddings_init env = Ok tt →
            In (EvFaissLoad (FAISS_DB_PATH cfg)) (events (get_ai_response cfg env text)))
       ∧ (∀ e, embeddings_init env = Ok tt → faiss_load env = Raise e →
            outcome (get_ai_response cfg env text) = Raise e)).
Proof.
  assert (Hin : FAISS_DB_PATH cfg ∈ module_load cfg existing).
  { unfold module_load. case_decide as Hd; [exact Hd|].
    apply elem_of_union. left. now apply elem_of_singleton. }
  split; [exact Hin | split].
  - unfold module_load. case_decide; [reflexivity | apply union_subseteq_r].
  - rewrite bool_decide_eq_true_2 by exact Hin. intros Hp.
    split; [|split].
    + intros ai Hai.
      destruct (get_ai_response_values cfg env text ai Hai)
        as [[Hf _]|[_ [Hc [greeting [answer [Hg [_ Hr]]]]]]]; [congruence|].
      split; [|exact Hc]. rewrite Hr.
      destruct Hg as [<-|[<-|[<-|[<-|[]]]]]; discriminate.
    + intros He. unfold get_ai_response. rewrite He, Hp.
      destruct (faiss_load env) as [[]|?]; [destruct (rag_invoke env)|];
        cbn; auto.
    + intros e He Hl. unfold get_ai_response. rewrite He, Hp, Hl. reflexivity.
Qed.

Lemma directory_defeats_guard_witness :
  path_exists env_llm_down = bool_decide ("faiss_db" ∈ module_load default_settings ∅)
  ∧ In (EvFaissLoad "faiss_db")
       (events (get_ai_response default_settings env_llm_down "hello")).
Proof.
  split; [reflexivity|].
  destruct (directory_defeats_guard default_settings ∅ env_llm_down "hello")
    as [_ [_ H]].
  destruct (H eq_refl) as [_ [Hload _]]. apply Hload. reflexivity.
Defined.
